(** * Anonymise-and-chunk algorithm: a shallow embedding of
      [template/algorithm/src/implementation/algorithm.py]

    The development models the four pieces of the Python module:
    [anonymize_text], the two extractors [filter_and_chunk_json_data] and
    [filter_and_chunk_csv_data], the writer [write_chunks_to_files] and the
    entry point [algorithm_main].

    Modelling choices.
    - A Python [str] is a [list ascii]; an [ascii] stands for the code point
      of the same number, U+0000 to U+00FF.  Word characters and case
      folding are those of Python's [re] module on that range.
    - [re.sub(r'\b' + re.escape(name) + r'\b', repl, text, flags=re.I)] is
      modelled by the left-to-right scan that [re.sub] performs for a pattern
      of that fixed shape: a literal, compared case-insensitively, between
      two word-boundary assertions.
    - A dict with a fixed set of expected keys is a record of [option]
      fields ([None] = key absent); a dict whose keys are data (a CSV row,
      the metadata of a unit) is an association list in insertion order.
    - A field of a CSV row, and so a metadata value or a content of a
      unit, is a string or [None] ([csv.DictReader] fills the missing
      fields of a short row with [None]); [value] has the two cases.
    - [d[k]] may raise [KeyError] and [re.sub] on [None] raises
      [TypeError]; code that can raise lives in the [result] monad.
    - File-system and console effects are an event log. *)

From Stdlib Require Import Ascii String DecimalString DecimalNat.
From Stdlib Require Import List Bool Arith Lia NArith.
Import ListNotations.
Open Scope list_scope.

(** ** Strings *)

Definition str := list ascii.

Definition lit (s : string) : str := list_ascii_of_string s.

Definition head_opt (s : str) : option ascii :=
  match s with
  | [] => None
  | c :: _ => Some c
  end.

(** [last_opt p x]: the last character of [x], or [p] when [x] is empty;
    with [p] the character before [x], this is the character before whatever
    follows [x]. *)
Fixpoint last_opt (p : option ascii) (x : str) : option ascii :=
  match x with
  | [] => p
  | c :: x' => last_opt (Some c) x'
  end.

(** [a == b] *)
Fixpoint str_eqb (a b : str) : bool :=
  match a, b with
  | [], [] => true
  | x :: a', y :: b' => (Ascii.eqb x y && str_eqb a' b')%bool
  | _, _ => false
  end.

(** Python truthiness of a string. *)
Definition truthy (s : str) : bool :=
  match s with
  | [] => false
  | _ :: _ => true
  end.

(** What a field can hold: [None] or a string. *)
Inductive value :=
| VNone
| VStr (s : str).

(** Python truthiness of a field. *)
Definition truthy_value (v : value) : bool :=
  match v with
  | VNone => false
  | VStr s => truthy s
  end.

(** [f"{v}"] *)
Definition format_value (v : value) : str :=
  match v with
  | VNone => lit "None"
  | VStr s => s
  end.

(** ** Characters as [re] sees them *)

Module Char.

Definition code (c : ascii) : N := N_of_ascii c.

Definition between (lo hi n : N) : bool := (N.leb lo n && N.leb n hi)%bool.

(** [\w] of a str pattern: [c.isalnum() or c == '_'].  Beyond ASCII the
    alphanumeric code points below U+0100 are the letters of Latin-1, the
    ordinal indicators, the micro sign, the superscript digits and the
    vulgar fractions. *)
Definition is_word (c : ascii) : bool :=
  let n := code c in
  (between 48 57 n || between 65 90 n || between 97 122 n || N.eqb n 95
   || N.eqb n 170 || N.eqb n 178 || N.eqb n 179 || N.eqb n 181
   || N.eqb n 185 || N.eqb n 186 || between 188 190 n
   || between 192 214 n || between 216 246 n || between 248 255 n)%bool.

(** Simple lower-case mapping, the one [re.IGNORECASE] compares through. *)
Definition lower (c : ascii) : ascii :=
  let n := code c in
  if (between 65 90 n || between 192 214 n || between 216 222 n)%bool
  then ascii_of_N (n + 32)
  else c.

(** Two characters match under [re.IGNORECASE]. *)
Definition ci_eqb (a b : ascii) : bool :=
  if ascii_dec (lower a) (lower b) then true else false.

Definition word_opt (o : option ascii) : bool :=
  match o with
  | None => false
  | Some c => is_word c
  end.

(** [\b] between the character before a position and the one at it
    ([None] at either end of the string). *)
Definition boundary (prev next : option ascii) : bool :=
  xorb (word_opt prev) (word_opt next).

End Char.
Import Char.

(** ** The anonymiser *)

Definition ANONYMIZATION_PLACEHOLDER : str := lit "[ANONYMIZED_PERSON]".

(** The escaped name of the pattern at the head of [s], compared character
    by character without case: on success the character before the rest and
    the rest. [p] is the character before [s]. *)
Fixpoint prefix_ci (name : str) (p : option ascii) (s : str)
  : option (option ascii * str) :=
  match name with
  | [] => Some (p, s)
  | a :: name' =>
      match s with
      | [] => None
      | c :: s' => if ci_eqb a c then prefix_ci name' (Some c) s' else None
      end
  end.

(** The whole pattern [\b name \b] matches at the head of [s]. *)
Definition match_here (name : str) (p : option ascii) (s : str) : bool :=
  (boundary p (head_opt s)
   && match prefix_ci name p s with
      | Some (p', r) => boundary p' (head_opt r)
      | None => false
      end)%bool.

(** [re.sub] for that pattern: the scan of the subject from left to right.
    [p] is the character before [s] in the subject; [skip] counts the
    characters of the last match still to be passed over.  At a match the
    replacement is emitted and the scan resumes after the match; an empty
    match (an empty name) emits the replacement and copies the character at
    the position; elsewhere the character is copied. *)
Fixpoint sub_scan (name : str) (p : option ascii) (skip : nat) (s : str) : str :=
  match s with
  | [] =>
      match skip with
      | 0 => if match_here name p [] then ANONYMIZATION_PLACEHOLDER else []
      | S _ => []
      end
  | c :: s' =>
      match skip with
      | S k => sub_scan name (Some c) k s'
      | 0 =>
          if match_here name p s then
            match name with
            | [] => ANONYMIZATION_PLACEHOLDER ++ c :: sub_scan name (Some c) 0 s'
            | _ :: name' =>
                ANONYMIZATION_PLACEHOLDER ++ sub_scan name (Some c) (length name') s'
            end
          else c :: sub_scan name (Some c) 0 s'
      end
  end.

Definition re_sub (name : str) (text : str) : str := sub_scan name None 0 text.

(** [anonymize_text]: the loop over [sensitive_names], each pass applied to
    the result of the one before. *)
Definition anonymize_text (text : str) (sensitive_names : list str) : str :=
  fold_left (fun anonymized_text name => re_sub name anonymized_text)
            sensitive_names text.

(** [re.search] for the pattern of [name], from a position on. *)
Fixpoint search_from (name : str) (p : option ascii) (s : str) : bool :=
  (match_here name p s
   || match s with
      | [] => false
      | c :: s' => search_from name (Some c) s'
      end)%bool.

(** [text] has a case-insensitive whole-word occurrence of [name]. *)
Definition occurs (name text : str) : bool := search_from name None text.


(** ** Exceptions, dict access and loops *)

Inductive exn :=
| KeyError (key : str)
| TypeError
| ParseFailure
| IOFailure.

Inductive result (A : Type) :=
| Ok (a : A)
| Raise (e : exn).
Arguments Ok {A} a.
Arguments Raise {A} e.

Definition bind {A B} (c : result A) (k : A -> result B) : result B :=
  match c with
  | Ok a => k a
  | Raise e => Raise e
  end.

Notation "x <- c ;; k" := (bind c (fun x => k))
  (at level 61, c at next level, right associativity).

(** A [for] loop whose body may raise: the state is threaded through the
    iterations and the first exception ends the loop. *)
Fixpoint for_each {A S} (l : list A) (body : S -> A -> result S) (s : S)
  : result S :=
  match l with
  | [] => Ok s
  | a :: l' => s' <- body s a ;; for_each l' body s'
  end.

Definition enumerate {A} (l : list A) : list (nat * A) :=
  combine (seq 0 (length l)) l.

(** [anonymize_text] when the text may be [None], as a field of a CSV row
    can be: the same loop, in which [re.sub] raises [TypeError] on [None].
    With no name the loop does not run and the text is returned, [None]
    included. *)
Definition re_sub_value (name : str) (text : value) : result value :=
  match text with
  | VStr s => Ok (VStr (re_sub name s))
  | VNone => Raise TypeError
  end.

Definition anonymize_value (text : value) (sensitive_names : list str)
  : result value :=
  for_each sensitive_names
    (fun anonymized_text name => re_sub_value name anonymized_text) text.

(** Dicts with a fixed set of expected keys: a field is [None] when the key
    is absent. *)
Module Field.

(** [key in d] *)
Definition contains {A} (field : option A) : bool :=
  match field with
  | Some _ => true
  | None => false
  end.

(** [d[key]] *)
Definition subscript {A} (key : string) (field : option A) : result A :=
  match field with
  | Some v => Ok v
  | None => Raise (KeyError (lit key))
  end.

(** [d.get(key, default)] *)
Definition get {A} (field : option A) (default : A) : A :=
  match field with
  | Some v => v
  | None => default
  end.

End Field.

(** Dicts whose keys are data, in insertion order. *)
Module Dict.

Definition t := list (str * value).

Fixpoint lookup (key : str) (d : t) : option value :=
  match d with
  | [] => None
  | (k, v) :: d' => if str_eqb k key then Some v else lookup key d'
  end.

(** [key in d] *)
Definition contains (key : str) (d : t) : bool :=
  match lookup key d with
  | Some _ => true
  | None => false
  end.

(** [d[key]] *)
Definition subscript (key : str) (d : t) : result value :=
  match lookup key d with
  | Some v => Ok v
  | None => Raise (KeyError key)
  end.

(** [d[key] = value]: the value of an existing key is replaced where it
    stands, a new key goes to the end. *)
Fixpoint set (key : str) (v : value) (d : t) : t :=
  match d with
  | [] => [(key, v)]
  | (k, v') :: d' =>
      if str_eqb k key then (k, v) :: d' else (k, v') :: set key v d'
  end.

End Dict.

(** ** Number formatting *)

(** [str(n)] of a non-negative int. *)
Definition py_str (n : nat) : str :=
  lit (NilEmpty.string_of_uint (Nat.to_uint n)).

(** [f"{n:03d}"]: at least three digits, zeros on the left. *)
Definition format_03d (n : nat) : str :=
  let digits := py_str n in
  repeat "0"%char (3 - length digits) ++ digits.

(** The number a string of decimal digits writes. *)
Definition int_of_str (s : str) : option nat :=
  option_map Nat.of_uint (NilEmpty.uint_of_string (string_of_list_ascii s)).

(** ** The nested input and the units *)

(** The document read by [json.load], for the keys the extractor looks at:
    a field is [None] when its key is absent, and a present field has the
    JSON type the code expects (a string for the date, the titles, the
    names and the contents, an object for the appointee, an array of
    objects for the articles and the two collections).  Other keys of the
    input are never read. *)
Record AppointeeRec := {
  Name : option str;
  Replacement : option str
}.

Record Article := {
  Content_FR : option str;
  Content_EN : option str
}.

Record Act := {
  Date : option str;
  Title_FR : option str;
  Title_EN : option str;
  Appointee : option AppointeeRec;
  Articles : option (list Article)
}.

Record Document := {
  Decrees : option (list Act);
  Orders : option (list Act)
}.

(** The chunk dicts built by the extractors: the JSON extractor sets the
    three keys, the CSV extractor only ["Chunk_ID"] and ["Content (EN)"]. *)
Record Chunk := {
  Chunk_ID : str;
  Content_FR_out : option value;
  Content_EN_out : option value
}.

Record Unit := {
  metadata : Dict.t;
  chunks : list Chunk
}.

Definition NA : str := lit "N/A".

(** The literal [{}] of [item.get('Appointee', {})]. *)
Definition empty_dict : AppointeeRec := {| Name := None; Replacement := None |}.

(** ** [filter_and_chunk_json_data] *)

Inductive item_list_key := Key_Decrees | Key_Orders.

Definition key_name (k : item_list_key) : string :=
  match k with
  | Key_Decrees => "Decrees"
  | Key_Orders => "Orders"
  end.

Definition collection (k : item_list_key) (data : Document) : option (list Act) :=
  match k with
  | Key_Decrees => Decrees data
  | Key_Orders => Orders data
  end.

(** Body of the inner loop of the name collection, lines 60 to 63. *)
Definition collect_names_item (all_sensitive_names : list str) (item : Act)
  : result (list str) :=
  has_name <-
    (if Field.contains (Appointee item)
     then ap <- Field.subscript "Appointee" (Appointee item) ;;
          Ok (Field.contains (Name ap))
     else Ok false) ;;
  all_sensitive_names <-
    (if has_name : bool
     then ap <- Field.subscript "Appointee" (Appointee item) ;;
          name <- Field.subscript "Name" (Name ap) ;;
          Ok (all_sensitive_names ++ [name])
     else Ok all_sensitive_names) ;;
  has_replacement <-
    (if Field.contains (Replacement (Field.get (Appointee item) empty_dict))
     then ap <- Field.subscript "Appointee" (Appointee item) ;;
          r <- Field.subscript "Replacement" (Replacement ap) ;;
          Ok (truthy r)
     else Ok false) ;;
  if has_replacement : bool
  then ap <- Field.subscript "Appointee" (Appointee item) ;;
       r <- Field.subscript "Replacement" (Replacement ap) ;;
       Ok (all_sensitive_names ++ [r])
  else Ok all_sensitive_names.

(** Lines 56 to 63: the names of both collections, before any act is
    processed. *)
Definition collect_names (data : Document) : result (list str) :=
  for_each [Key_Decrees; Key_Orders]
    (fun all_sensitive_names k =>
       if Field.contains (collection k data)
       then items <- Field.subscript (key_name k) (collection k data) ;;
            for_each items collect_names_item all_sensitive_names
       else Ok all_sensitive_names)
    [].

(** Body of the loop over the articles of an act. *)
Definition article_chunk (all_sensitive_names : list str)
  (unit_chunks : list Chunk) (ja : nat * Article) : result (list Chunk) :=
  let (j, article) := ja in
  let anonymized_content_fr :=
    anonymize_text (Field.get (Content_FR article) []) all_sensitive_names in
  let anonymized_content_en :=
    anonymize_text (Field.get (Content_EN article) []) all_sensitive_names in
  Ok (unit_chunks ++ [ {| Chunk_ID := format_03d (j + 1);
                          Content_FR_out := Some (VStr anonymized_content_fr);
                          Content_EN_out := Some (VStr anonymized_content_en) |} ]).

(** Body of the loop over the acts of a collection; the loops over the
    decrees (lines 67 to 104) and over the orders (lines 108 to 143) differ
    in the value of ["Type"] only. *)
Definition act_unit (type_label : string) (original_file_name : str)
  (all_sensitive_names : list str)
  (filtered_output_units : list Unit) (act : Act) : result (list Unit) :=
  let unit_metadata : Dict.t :=
    [ (lit "Source", VStr original_file_name);
      (lit "Type", VStr (lit type_label));
      (lit "Date", VStr (Field.get (Date act) NA));
      (lit "Title (FR)", VStr (Field.get (Title_FR act) NA));
      (lit "Title (EN)", VStr (Field.get (Title_EN act) NA)) ] in
  unit_chunks <-
    (if Field.contains (Articles act)
     then articles <- Field.subscript "Articles" (Articles act) ;;
          for_each (enumerate articles) (article_chunk all_sensitive_names) []
     else Ok []) ;;
  let processed_appointee_name :=
    Field.get (Name (Field.get (Appointee act) empty_dict)) NA in
  let unit_metadata :=
    if negb (str_eqb processed_appointee_name NA)
    then Dict.set (lit "Appointee Name") (VStr ANONYMIZATION_PLACEHOLDER)
           unit_metadata
    else Dict.set (lit "Appointee Name") (VStr processed_appointee_name)
           unit_metadata in
  Ok (filtered_output_units
        ++ [ {| metadata := unit_metadata; chunks := unit_chunks |} ]).

Definition filter_and_chunk_json_data (data : Document) (original_file_name : str)
  : result (list Unit) :=
  let filtered_output_units := [] in
  all_sensitive_names <- collect_names data ;;
  filtered_output_units <-
    (if Field.contains (Decrees data)
     then decrees <- Field.subscript "Decrees" (Decrees data) ;;
          for_each decrees
            (act_unit "Decree" original_file_name all_sensitive_names)
            filtered_output_units
     else Ok filtered_output_units) ;;
  filtered_output_units <-
    (if Field.contains (Orders data)
     then orders <- Field.subscript "Orders" (Orders data) ;;
          for_each orders
            (act_unit "Order" original_file_name all_sensitive_names)
            filtered_output_units
     else Ok filtered_output_units) ;;
  Ok filtered_output_units.

(** ** [json.dumps(row, ensure_ascii=False)] of a row *)

Module Json.

Definition dquote : ascii := ascii_of_nat 34.
Definition backslash : ascii := ascii_of_nat 92.

Definition hex_digit (n : N) : ascii :=
  if N.ltb n 10 then ascii_of_N (48 + n) else ascii_of_N (87 + n).

(** The replacement of one character by [ESCAPE_DCT]: the quote, the
    backslash and the control characters are escaped, everything else is
    kept. *)
Definition escape_char (c : ascii) : str :=
  let n := code c in
  if N.eqb n 34 then [backslash; dquote]
  else if N.eqb n 92 then [backslash; backslash]
  else if N.eqb n 8 then backslash :: lit "b"
  else if N.eqb n 12 then backslash :: lit "f"
  else if N.eqb n 10 then backslash :: lit "n"
  else if N.eqb n 13 then backslash :: lit "r"
  else if N.eqb n 9 then backslash :: lit "t"
  else if N.ltb n 32
       then backslash :: lit "u00" ++ [hex_digit (N.div n 16); hex_digit (N.modulo n 16)]
  else [c].

Definition encode_string (s : str) : str :=
  dquote :: flat_map escape_char s ++ [dquote].

(** A field: [None] is written [null]. *)
Definition encode_value (v : value) : str :=
  match v with
  | VNone => lit "null"
  | VStr s => encode_string s
  end.

Definition encode_item (kv : str * value) : str :=
  encode_string (fst kv) ++ lit ": " ++ encode_value (snd kv).

Fixpoint join (sep : str) (l : list str) : str :=
  match l with
  | [] => []
  | [x] => x
  | x :: l' => x ++ sep ++ join sep l'
  end.

(** The list kept under the key [None], which is written ["null"]. *)
Definition encode_rest (rest : list str) : str :=
  encode_string (lit "null") ++ lit ": "
  ++ lit "[" ++ join (lit ", ") (map encode_string rest) ++ lit "]".

(** The items of the dict in insertion order; [rest] is the list under the
    key [None], the last key of a row that has it, and is empty for a row
    that has no such key. *)
Definition dumps (d : Dict.t) (rest : list str) : str :=
  lit "{"
  ++ join (lit ", ")
       (map encode_item d
        ++ match rest with
           | [] => []
           | _ :: _ => [encode_rest rest]
           end)
  ++ lit "}".

End Json.

(** ** [filter_and_chunk_csv_data] *)

(** A row of [csv.DictReader].  [fields] maps the column names of the
    header to the fields of the row, in header order; a field is a string,
    or [None] when the row is shorter than the header.  [rest] holds the
    fields beyond the header of a longer row, which [csv.DictReader] keeps
    as a list under the key [None], after the other keys; it is empty for a
    row that has no such key. *)
Record Row := {
  fields : Dict.t;
  rest : list str
}.

(** Lines 166 to 168.  A field that is truthy is a string that is not
    empty. *)
Definition collect_names_row (sensitive_names_csv : list str) (row : Row)
  : result (list str) :=
  has_name <-
    (if Dict.contains (lit "Name") (fields row)
     then name <- Dict.subscript (lit "Name") (fields row) ;;
          Ok (truthy_value name)
     else Ok false) ;;
  if has_name : bool
  then name <- Dict.subscript (lit "Name") (fields row) ;;
       match name with
       | VStr name => Ok (sensitive_names_csv ++ [name])
       | VNone => Ok sensitive_names_csv
       end
  else Ok sensitive_names_csv.

(** Body of the loop of lines 171 to 213. *)
Definition row_unit (original_file_name : str) (sensitive_names_csv : list str)
  (filtered_output_units : list Unit) (ir : nat * Row) : result (list Unit) :=
  let (i, row) := ir in
  let unit_metadata : Dict.t :=
    [ (lit "Source", VStr original_file_name);
      (lit "Type", VStr (lit "CSV_Row"));
      (lit "Row_ID", VStr (py_str (i + 1))) ] in
  unit_metadata <-
    (if Dict.contains (lit "Date") (fields row)
     then date <- Dict.subscript (lit "Date") (fields row) ;;
          Ok (Dict.set (lit "Date") date unit_metadata)
     else Ok unit_metadata) ;;
  unit_metadata <-
    (if Dict.contains (lit "Subject") (fields row)
     then subject <- Dict.subscript (lit "Subject") (fields row) ;;
          Ok (Dict.set (lit "Title") subject unit_metadata)
     else Ok unit_metadata) ;;
  let processed_row_content := fields row in
  let processed_row_content :=
    if Dict.contains (lit "Name") processed_row_content
    then Dict.set (lit "Name") (VStr ANONYMIZATION_PLACEHOLDER)
           processed_row_content
    else processed_row_content in
  processed_row_content <-
    (if Dict.contains (lit "Text_Content") processed_row_content
     then text <- Dict.subscript (lit "Text_Content") processed_row_content ;;
          anonymized <- anonymize_value text sensitive_names_csv ;;
          Ok (Dict.set (lit "Text_Content") anonymized processed_row_content)
     else Ok processed_row_content) ;;
  let unit_chunks := [] in
  unit_chunks <-
    (if Dict.contains (lit "Text_Content") processed_row_content
     then text <- Dict.subscript (lit "Text_Content") processed_row_content ;;
          Ok (unit_chunks ++ [ {| Chunk_ID := lit "001";
                                  Content_FR_out := None;
                                  Content_EN_out := Some text |} ])
     else
       let chunk_content := Json.dumps processed_row_content (rest row) in
       Ok (unit_chunks ++ [ {| Chunk_ID := lit "001";
                               Content_FR_out := None;
                               Content_EN_out :=
                                 Some (VStr (lit "CSV Row data: "
                                               ++ chunk_content)) |} ])) ;;
  Ok (filtered_output_units
        ++ [ {| metadata := unit_metadata; chunks := unit_chunks |} ]).

Definition filter_and_chunk_csv_data (data : list Row) (original_file_name : str)
  : result (list Unit) :=
  let filtered_output_units := [] in
  sensitive_names_csv <- for_each data collect_names_row [] ;;
  for_each (enumerate data) (row_unit original_file_name sensitive_names_csv)
           filtered_output_units.

(** ** Effects: the platform and the event log *)

Definition OUTPUT_DIR : str := lit "filtered_and_chunked_data".

(** What the module takes from [os.path], [json] and [csv]: reading and
    parsing either give the data or raise. *)
Record Platform := {
  path_join : str -> str -> str;
  path_splitext : str -> str * str;
  path_basename : str -> str;
  json_load : str -> result Document;
  csv_rows : str -> result (list Row)
}.

(** The console messages, by the [print] that writes them. *)
Inductive message :=
| MsgProcessing (input_file_path : str)
| MsgWritten (output_filename : str)
| MsgUnsupported (file_extension : str)
| MsgSuccess (count : nat) (directory : str)
| MsgNoUnits (input_file_path : str)
| MsgError (input_file_path : str) (e : exn)
| MsgTraceback (e : exn).

Inductive event :=
| Stdout (m : message)
| Makedirs (path : str)
| FileWrite (path : str) (body : str).

(** What a call returns to its caller. *)
Inductive retval :=
| RNone
| RInt (n : nat).

(** ** [write_chunks_to_files] *)

Definition newline : str := [ascii_of_nat 10].

(** [f.write(s)] on the text written so far. *)
Definition f_write (f : str) (s : str) : str := f ++ s.

(** Lines 240 to 245: one chunk. *)
Definition write_chunk (f : str) (chunk : Chunk) : str :=
  let f := f_write f (lit "Chunk [" ++ Chunk_ID chunk ++ lit "]:" ++ newline) in
  let f :=
    if (Field.contains (Content_FR_out chunk)
        && truthy_value (Field.get (Content_FR_out chunk) VNone))%bool
    then f_write f (lit "Content (FR): "
                      ++ format_value (Field.get (Content_FR_out chunk) VNone)
                      ++ newline)
    else f in
  let f :=
    if (Field.contains (Content_EN_out chunk)
        && truthy_value (Field.get (Content_EN_out chunk) VNone))%bool
    then f_write f (lit "Content (EN): "
                      ++ format_value (Field.get (Content_EN_out chunk) VNone)
                      ++ newline)
    else f in
  f_write f newline.

(** Lines 232 to 245: what is in the file when it is closed. *)
Definition write_unit (unit : Unit) : str :=
  let f := [] in
  let f :=
    fold_left (fun f kv => f_write f (fst kv ++ lit ": "
                                        ++ format_value (snd kv) ++ newline))
              (metadata unit) f in
  let f := f_write f newline in
  fold_left write_chunk (chunks unit) f.

Section WithPlatform.

Variable os : Platform.

Definition write_chunks_to_files (chunks_data : list Unit) (output_sub_dir : str)
  : list event * retval :=
  let full_output_path := path_join os OUTPUT_DIR output_sub_dir in
  let log := [Makedirs full_output_path] in
  let log :=
    fold_left
      (fun log iu =>
         let '(i, unit) := iu in
         let output_filename :=
           path_join os full_output_path
             (output_sub_dir ++ lit "_unit_" ++ format_03d (i + 1) ++ lit ".txt") in
         log ++ [FileWrite output_filename (write_unit unit);
                 Stdout (MsgWritten output_filename)])
      (enumerate chunks_data) log in
  (log, RNone).

(** ** [algorithm_main] *)

Definition replace_char (old new : ascii) (s : str) : str :=
  map (fun c => if Ascii.eqb c old then new else c) s.

(** Lines 281 to 285. *)
Definition output_units (input_file_path input_data_identifier : str)
  (processed_units : list Unit) : list event :=
  match processed_units with
  | _ :: _ =>
      fst (write_chunks_to_files processed_units input_data_identifier)
      ++ [Stdout (MsgSuccess (length processed_units)
                   (path_join os OUTPUT_DIR input_data_identifier))]
  | [] => [Stdout (MsgNoUnits input_file_path)]
  end.

(** Lines 287 to 290. *)
Definition on_exception (input_file_path : str) (e : exn) : list event :=
  [Stdout (MsgError input_file_path e); Stdout (MsgTraceback e)].

(** Lines 262 to 279: the units made by the extractor of the input's
    format, or the exception raised on the way; [None] when the format is
    not supported. *)
Definition extract_units (input_file_path : str) : option (result (list Unit)) :=
  let file_extension := map lower (snd (path_splitext os input_file_path)) in
  let original_file_name := path_basename os input_file_path in
  if str_eqb file_extension (lit ".json") then
    Some (raw_data <- json_load os input_file_path ;;
          filter_and_chunk_json_data raw_data original_file_name)
  else if str_eqb file_extension (lit ".csv") then
    Some (raw_data <- csv_rows os input_file_path ;;
          filter_and_chunk_csv_data raw_data original_file_name)
  else None.

Definition algorithm_main (input_file_path : str) : list event :=
  let file_extension := map lower (snd (path_splitext os input_file_path)) in
  let original_file_name := path_basename os input_file_path in
  let input_data_identifier := replace_char "."%char "_"%char original_file_name in
  Stdout (MsgProcessing input_file_path) ::
  match extract_units input_file_path with
  | Some (Ok processed_units) =>
      output_units input_file_path input_data_identifier processed_units
  | Some (Raise e) => on_exception input_file_path e
  | None => [Stdout (MsgUnsupported file_extension)]
  end.

End WithPlatform.

(** A POSIX platform for running the model: [os.path.join] of two
    components, [os.path.basename], [os.path.splitext], and a file system
    given by the two readers. *)
Definition posix_join (a b : str) : str :=
  if match b with c :: _ => Ascii.eqb c "/"%char | [] => false end then b
  else
    match last_opt None a with
    | None => b
    | Some c => if Ascii.eqb c "/"%char then a ++ b else a ++ lit "/" ++ b
    end.

(** What follows the last [sep] of [s]; all of [s] when it has none. *)
Fixpoint after_last (sep : ascii) (s : str) : str :=
  match s with
  | [] => []
  | c :: s' =>
      if existsb (Ascii.eqb sep) s' then after_last sep s'
      else if Ascii.eqb c sep then s' else c :: s'
  end.

Definition posix_basename (p : str) : str := after_last "/"%char p.

Definition posix_splitext (p : str) : str * str :=
  let base := posix_basename p in
  if existsb (Ascii.eqb "."%char) base then
    let ext := "."%char :: after_last "."%char base in
    let stem := firstn (length base - length ext) base in
    if existsb (fun c => negb (Ascii.eqb c "."%char)) stem
    then (firstn (length p - length ext) p, ext)
    else (p, [])
  else (p, []).

Definition posix (jsons : str -> result Document)
  (csvs : str -> result (list Row)) : Platform :=
  {| path_join := posix_join;
     path_splitext := posix_splitext;
     path_basename := posix_basename;
     json_load := jsons;
     csv_rows := csvs |}.

(** ** The layout of a file in the words of the specification *)

(** A metadata entry as [key: value] on its own line. *)
Definition metadata_line (kv : str * value) : str :=
  fst kv ++ lit ": " ++ format_value (snd kv) ++ newline.

(** A content line, there iff the content is present and not empty. *)
Definition content_line (label : string) (content : option value) : str :=
  match content with
  | Some (VStr (c :: s)) => lit label ++ lit ": " ++ (c :: s) ++ newline
  | _ => []
  end.

(** A header line naming the chunk id, the content lines, a blank line. *)
Definition chunk_block (chunk : Chunk) : str :=
  lit "Chunk [" ++ Chunk_ID chunk ++ lit "]:" ++ newline
  ++ content_line "Content (FR)" (Content_FR_out chunk)
  ++ content_line "Content (EN)" (Content_EN_out chunk)
  ++ newline.

(** The metadata lines, one blank line, the chunk blocks. *)
Definition spec_file_body (unit : Unit) : str :=
  concat (map metadata_line (metadata unit)) ++ newline
  ++ concat (map chunk_block (chunks unit)).

Definition unit_filename (os : Platform) (output_sub_dir : str) (i : nat) : str :=
  path_join os (path_join os OUTPUT_DIR output_sub_dir)
    (output_sub_dir ++ lit "_unit_" ++ format_03d (i + 1) ++ lit ".txt").

(** The number of files a log writes, and whether an event touches the file
    system. *)
Definition touches_files (e : event) : bool :=
  match e with
  | Stdout _ => false
  | Makedirs _ => true
  | FileWrite _ _ => true
  end.

Definition is_write (e : event) : bool :=
  match e with
  | FileWrite _ _ => true
  | _ => false
  end.

Definition files_written (log : list event) : nat := length (filter is_write log).

(** [needle in hay] for strings. *)
Fixpoint starts_with (needle hay : str) : bool :=
  match needle, hay with
  | [], _ => true
  | a :: needle', c :: hay' => (Ascii.eqb a c && starts_with needle' hay')%bool
  | _ :: _, [] => false
  end.


(** ** Names that cannot meet the placeholder *)

Definition PLACEHOLDER_WORD : str := lit "ANONYMIZED_PERSON".

Definition is_bracket (c : ascii) : bool :=
  if ascii_dec c "["%char then true
  else if ascii_dec c "]"%char then true else false.

(** Equality of two strings without case. *)
Fixpoint ci_str_eqb (a b : str) : bool :=
  match a, b with
  | [], [] => true
  | x :: a', y :: b' => (ci_eqb x y && ci_str_eqb a' b')%bool
  | _, _ => false
  end.

(** A name is plain when it is not empty, has no square bracket and is not
    the word inside the placeholder, in any case. *)
Definition plain_name (name : str) : bool :=
  (truthy name && negb (existsb is_bracket name)
   && negb (ci_str_eqb name PLACEHOLDER_WORD))%bool.

(** [replaced names p t o]: the text [o] is the text [t] in which some
    matches of names of the list, one after the other without overlap, are
    each replaced by the placeholder, and every other character is copied;
    [p] is the character before [t]. *)
Inductive replaced (names : list str) : option ascii -> str -> str -> Prop :=
| replaced_nil (p : option ascii) : replaced names p [] []
| replaced_keep (p : option ascii) (c : ascii) (t o : str) :
    replaced names (Some c) t o -> replaced names p (c :: t) (c :: o)
| replaced_hit (p : option ascii) (name t : str) (q : option ascii) (r o : str) :
    In name names -> name <> [] ->
    match_here name p t = true ->
    prefix_ci name p t = Some (q, r) ->
    replaced names q r o ->
    replaced names p t (ANONYMIZATION_PLACEHOLDER ++ o).

(** ** Whole words in the words of the specification *)

(** [name] stands at the head of [s], in any case. *)
Fixpoint starts_ci (name s : str) : bool :=
  match name, s with
  | [], _ => true
  | a :: name', c :: s' => (ci_eqb a c && starts_ci name' s')%bool
  | _ :: _, [] => false
  end.

(** A whole-word occurrence of [name] at the head of [s]: the name stands
    there, in any case, and is not adjacent to a word character on either
    side.  [p] is the character before [s]. *)
Definition whole_word_here (name : str) (p : option ascii) (s : str) : bool :=
  (starts_ci name s
   && negb (word_opt p)
   && negb (word_opt (head_opt (skipn (length name) s))))%bool.

Fixpoint whole_word_from (name : str) (p : option ascii) (s : str) : bool :=
  (whole_word_here name p s
   || match s with
      | [] => false
      | c :: s' => whole_word_from name (Some c) s'
      end)%bool.

(** [text] contains a case-insensitive whole-word occurrence of [name]. *)
Definition whole_word_in (name text : str) : bool :=
  whole_word_from name None text.

(** Every whole-word occurrence of [name], from left to right and without
    overlap, replaced by the placeholder; [fuel] bounds the steps and the
    length of the text is enough. *)
Fixpoint replace_from (fuel : nat) (name : str) (p : option ascii) (s : str)
  : str :=
  match fuel with
  | 0 => s
  | S fuel' =>
      match s with
      | [] => []
      | c :: s' =>
          if whole_word_here name p s
          then ANONYMIZATION_PLACEHOLDER
                 ++ replace_from fuel' name
                      (last_opt p (firstn (length name) s))
                      (skipn (length name) s)
          else c :: replace_from fuel' name (Some c) s'
      end
  end.

Definition replace_whole_words (name text : str) : str :=
  replace_from (length text) name None text.

(** [rewritten names p t o]: [o] is [t] in which some whole-word
    occurrences of names of the list, one after the other without overlap,
    are each replaced by the placeholder, and every other character is
    kept; [p] is the character before [t], and [occ] is the occurrence that
    is replaced. *)
Inductive rewritten (names : list str) : option ascii -> str -> str -> Prop :=
| rewritten_nil (p : option ascii) : rewritten names p [] []
| rewritten_keep (p : option ascii) (c : ascii) (t o : str) :
    rewritten names (Some c) t o -> rewritten names p (c :: t) (c :: o)
| rewritten_hit (p : option ascii) (name occ t o : str) :
    In name names -> name <> [] ->
    length occ = length name ->
    whole_word_here name p (occ ++ t) = true ->
    rewritten names (last_opt p occ) t o ->
    rewritten names p (occ ++ t) (ANONYMIZATION_PLACEHOLDER ++ o).

(** A name begins and ends with a word character. *)
Definition word_edged (name : str) : bool :=
  (word_opt (head_opt name) && word_opt (last_opt None name))%bool.

(** A proper name: plain, and it begins and ends with a word character. *)
Definition proper_name (name : str) : bool :=
  (plain_name name && word_edged name)%bool.

(** ** What the extractors are expected to build *)

Definition acts (k : item_list_key) (data : Document) : list Act :=
  Field.get (collection k data) [].

Definition all_acts (data : Document) : list Act :=
  acts Key_Decrees data ++ acts Key_Orders data.

Definition appointee_name (act : Act) : option str :=
  Name (Field.get (Appointee act) empty_dict).

Definition replacement_name (act : Act) : option str :=
  Replacement (Field.get (Appointee act) empty_dict).

Definition articles_of (act : Act) : list Article :=
  Field.get (Articles act) [].

(** The names an act adds to the list: its appointee's name when the key is
    there, and the replacement's when it is there and not empty. *)
Definition act_names (act : Act) : list str :=
  match appointee_name act with
  | Some name => [name]
  | None => []
  end
  ++ match replacement_name act with
     | Some r => if truthy r then [r] else []
     | None => []
     end.

Definition nested_names (data : Document) : list str :=
  flat_map act_names (all_acts data).

Definition chunk_of (names : list str) (ja : nat * Article) : Chunk :=
  {| Chunk_ID := format_03d (fst ja + 1);
     Content_FR_out :=
       Some (VStr (anonymize_text (Field.get (Content_FR (snd ja)) []) names));
     Content_EN_out :=
       Some (VStr (anonymize_text (Field.get (Content_EN (snd ja)) []) names)) |}.

Definition appointee_label (act : Act) : str :=
  match appointee_name act with
  | Some name => if str_eqb name NA then NA else ANONYMIZATION_PLACEHOLDER
  | None => NA
  end.

Definition unit_of (type_label : string) (original_file_name : str)
  (names : list str) (act : Act) : Unit :=
  {| metadata :=
       [ (lit "Source", VStr original_file_name);
         (lit "Type", VStr (lit type_label));
         (lit "Date", VStr (Field.get (Date act) NA));
         (lit "Title (FR)", VStr (Field.get (Title_FR act) NA));
         (lit "Title (EN)", VStr (Field.get (Title_EN act) NA));
         (lit "Appointee Name", VStr (appointee_label act)) ];
     chunks := map (chunk_of names) (enumerate (articles_of act)) |}.

Definition row_names (row : Row) : list str :=
  match Dict.lookup (lit "Name") (fields row) with
  | Some (VStr name) => if truthy name then [name] else []
  | _ => []
  end.

Definition csv_names (data : list Row) : list str := flat_map row_names data.

(** The ["Text_Content"] of the row is [None]. *)
Definition text_is_none (row : Row) : bool :=
  match Dict.lookup (lit "Text_Content") (fields row) with
  | Some VNone => true
  | _ => false
  end.

(** Line 193 returns for the row: its text is not [None], or there is no
    name to look for. *)
Definition row_returns (names : list str) (row : Row) : bool :=
  (negb (text_is_none row)
   || match names with [] => true | _ :: _ => false end)%bool.

(** Line 193 returns for every row. *)
Definition csv_returns (data : list Row) : bool :=
  forallb (row_returns (csv_names data)) data.

(** The working copy of the fields of a row: the name, when the row has
    one, overwritten. *)
Definition masked_fields (row : Row) : Dict.t :=
  if Dict.contains (lit "Name") (fields row)
  then Dict.set (lit "Name") (VStr ANONYMIZATION_PLACEHOLDER) (fields row)
  else fields row.

(** The content of the chunk of a row, when extraction returns. *)
Definition row_content (names : list str) (row : Row) : value :=
  match Dict.lookup (lit "Text_Content") (fields row) with
  | Some (VStr text) => VStr (anonymize_text text names)
  | Some VNone => VNone
  | None =>
      VStr (lit "CSV Row data: " ++ Json.dumps (masked_fields row) (rest row))
  end.

Definition row_metadata (original_file_name : str) (ir : nat * Row) : Dict.t :=
  [ (lit "Source", VStr original_file_name);
    (lit "Type", VStr (lit "CSV_Row"));
    (lit "Row_ID", VStr (py_str (fst ir + 1))) ]
  ++ match Dict.lookup (lit "Date") (fields (snd ir)) with
     | Some date => [(lit "Date", date)]
     | None => []
     end
  ++ match Dict.lookup (lit "Subject") (fields (snd ir)) with
     | Some subject => [(lit "Title", subject)]
     | None => []
     end.

Definition row_unit_of (original_file_name : str) (names : list str)
  (ir : nat * Row) : Unit :=
  {| metadata := row_metadata original_file_name ir;
     chunks := [ {| Chunk_ID := lit "001";
                    Content_FR_out := None;
                    Content_EN_out := Some (row_content names (snd ir)) |} ] |}.

(** ** Vocabulary of the statements *)

(** A unit made from an act: its type, one chunk per article, the ids
    counting from one. *)
Definition unit_matches (type_label : string) (act : Act) (u : Unit) : Prop :=
  Dict.lookup (lit "Type") (metadata u) = Some (VStr (lit type_label))
  /\ length (chunks u) = length (articles_of act)
  /\ map Chunk_ID (chunks u) = map format_03d (seq 1 (length (articles_of act)))
  /\ map int_of_str (map Chunk_ID (chunks u))
     = map Some (seq 1 (length (articles_of act)))
  /\ Forall (fun id => 3 <= length id) (map Chunk_ID (chunks u)).

(** The chunk of an article holds the two texts of the article, anonymised
    against [names]; a missing text counts as empty. *)
Definition anonymized_article (names : list str) (article : Article)
  (chunk : Chunk) : Prop :=
  Content_FR_out chunk
  = Some (VStr (anonymize_text (Field.get (Content_FR article) []) names))
  /\ Content_EN_out chunk
     = Some (VStr (anonymize_text (Field.get (Content_EN article) []) names)).

(** The text of a field that may be absent, as [d.get(key, '')] reads it. *)
Definition text_of (field : option str) : str := Field.get field [].

(** The two contents of the chunk of an article are the two texts of the
    article in which whole-word occurrences of names of the list are
    replaced by the placeholder and every other character is kept. *)
Definition rewritten_article (names : list str) (article : Article)
  (chunk : Chunk) : Prop :=
  exists fr en,
    Content_FR_out chunk = Some (VStr fr)
    /\ Content_EN_out chunk = Some (VStr en)
    /\ rewritten names None (text_of (Content_FR article)) fr
    /\ rewritten names None (text_of (Content_EN article)) en.

(** The names of the list other than [name], in any case, have no
    whole-word occurrence in [text]. *)
Definition only_name_in (name : str) (names : list str) (text : str) : bool :=
  forallb (fun m => ci_str_eqb m name || negb (whole_word_in m text))%bool names.

(** Where [name] is the only name of the list that occurs in a text of the
    article, the content is that text with every whole-word occurrence of
    [name] replaced by the placeholder. *)
Definition replaced_article (name : str) (names : list str) (article : Article)
  (chunk : Chunk) : Prop :=
  (only_name_in name names (text_of (Content_FR article)) = true ->
   Content_FR_out chunk
   = Some (VStr (replace_whole_words name (text_of (Content_FR article)))))
  /\ (only_name_in name names (text_of (Content_EN article)) = true ->
      Content_EN_out chunk
      = Some (VStr (replace_whole_words name (text_of (Content_EN article))))).

Definition chunk_texts (chunk : Chunk) : list str :=
  match Content_FR_out chunk with Some (VStr c) => [c] | _ => [] end
  ++ match Content_EN_out chunk with Some (VStr c) => [c] | _ => [] end.

(** Every content of every chunk of the units. *)
Definition unit_texts (units : list Unit) : list str :=
  flat_map (fun u => flat_map chunk_texts (chunks u)) units.

(** Date and titles of the unit of an act: the value of the act, or the
    sentinel when the act has none. *)
Definition sentinel_metadata (act : Act) (u : Unit) : Prop :=
  Dict.lookup (lit "Date") (metadata u)
  = Some (VStr match Date act with Some d => d | None => NA end)
  /\ Dict.lookup (lit "Title (FR)") (metadata u)
     = Some (VStr match Title_FR act with Some t => t | None => NA end)
  /\ Dict.lookup (lit "Title (EN)") (metadata u)
     = Some (VStr match Title_EN act with Some t => t | None => NA end).

(** Date and title of the unit of a row: the field of the row under the
    key, whatever it holds, or no entry when the row has no such key. *)
Definition optional_metadata (row : Row) (u : Unit) : Prop :=
  match Dict.lookup (lit "Date") (fields row) with
  | Some d => Dict.lookup (lit "Date") (metadata u) = Some d
  | None => Dict.contains (lit "Date") (metadata u) = false
  end
  /\ match Dict.lookup (lit "Subject") (fields row) with
     | Some t => Dict.lookup (lit "Title") (metadata u) = Some t
     | None => Dict.contains (lit "Title") (metadata u) = false
     end.




(** The events of the writer for one unit. *)
Definition unit_events (os : Platform) (output_sub_dir : str)
  (iu : nat * Unit) : list event :=
  [ FileWrite (unit_filename os output_sub_dir (fst iu)) (spec_file_body (snd iu));
    Stdout (MsgWritten (unit_filename os output_sub_dir (fst iu))) ].

(** ** Sample inputs *)

Module Sample.

Definition text : str := lit "Bob Thebuilder designed it. Ask Bob or alice.".
Definition names : list str := [lit "Alice"; lit "Bob Thebuilder"].

(** A name that is the word of the placeholder. *)
Definition clash : str := lit "anonymized_person".

Definition jane : Act :=
  {| Date := Some (lit "16 March 1994");
     Title_FR := Some (lit "Decret portant nomination");
     Title_EN := Some (lit "Appointment");
     Appointee := Some {| Name := Some (lit "Jane Doe");
                          Replacement := Some (lit "John Roe") |};
     Articles :=
       Some [ {| Content_FR := Some (lit "Est nommee : Jane Doe, en remplacement de John Roe.");
                 Content_EN := Some (lit "JANE DOE is appointed.") |};
              {| Content_FR := Some (lit "Le present decret sera publie.");
                 Content_EN := None |} ] |}.

(** An act whose appointee is named by the sentinel itself. *)
Definition unnamed : Act :=
  {| Date := None;
     Title_FR := None;
     Title_EN := Some (lit "Order");
     Appointee := Some {| Name := Some NA; Replacement := Some [] |};
     Articles :=
       Some [ {| Content_FR := Some (lit "Rang: n/a (N/A)");
                 Content_EN := Some (lit "Rank: N/A. Signed before Jane Doe.") |} ] |}.

Definition document : Document :=
  {| Decrees := Some [jane]; Orders := Some [unnamed] |}.

(** An appointee whose name is the last letter of the sentinel, before the
    act named by the sentinel. *)
Definition letter_a : Act :=
  {| Date := None;
     Title_FR := None;
     Title_EN := None;
     Appointee := Some {| Name := Some (lit "A"); Replacement := None |};
     Articles := None |}.

Definition overlapping : Document :=
  {| Decrees := Some [letter_a]; Orders := Some [unnamed] |}.

Definition empty_document : Document := {| Decrees := None; Orders := None |}.

Definition alice : Row :=
  {| fields :=
       [ (lit "ID", VStr (lit "1")); (lit "Name", VStr (lit "Alice"));
         (lit "Date", VStr (lit "2023-01-15"));
         (lit "Subject", VStr (lit "Alice reports"));
         (lit "Text_Content", VStr (lit "Led by Alice. ALICE presented.")) ];
     rest := [] |}.

Definition bob : Row :=
  {| fields :=
       [ (lit "ID", VStr (lit "2")); (lit "Name", VStr (lit "Bob"));
         (lit "Role", VStr (lit "builder")) ];
     rest := [] |}.

Definition rows : list Row := [alice; bob].

(** The row of the line [Al] under the header [Name,Date,Text_Content]:
    the two missing fields are [None]. *)
Definition short : Row :=
  {| fields :=
       [ (lit "Name", VStr (lit "Al")); (lit "Date", VNone);
         (lit "Text_Content", VNone) ];
     rest := [] |}.

(** The row of the line [,] under the same header: no name, a date that is
    empty, no text. *)
Definition short_unnamed : Row :=
  {| fields :=
       [ (lit "Name", VStr []); (lit "Date", VStr []);
         (lit "Text_Content", VNone) ];
     rest := [] |}.

(** The row of the line [7] under the header [ID,Date]. *)
Definition undated : Row :=
  {| fields := [ (lit "ID", VStr (lit "7")); (lit "Date", VNone) ];
     rest := [] |}.

(** The row of the line [Bo,2020,x,y] under the header [Name,Date]. *)
Definition long : Row :=
  {| fields := [ (lit "Name", VStr (lit "Bo")); (lit "Date", VStr (lit "2020")) ];
     rest := [lit "x"; lit "y"] |}.

Definition os : Platform :=
  posix (fun _ => Ok empty_document) (fun _ => Ok rows).

Definition unit : Unit :=
  {| metadata := [(lit "Source", VStr (lit "f.json"));
                  (lit "Type", VStr (lit "Decree"))];
     chunks := [ {| Chunk_ID := lit "001";
                    Content_FR_out := Some (VStr []);
                    Content_EN_out := Some (VStr (lit "text")) |} ] |}.

End Sample.

(** ** Vocabulary of the further properties *)

(** The files a log writes, in order. *)
Definition written_paths (log : list event) : list str :=
  flat_map (fun e => match e with FileWrite path _ => [path] | _ => [] end) log.

(** The six keys of the metadata of a nested unit, in the order of their
    insertion. *)
Definition nested_keys : list str :=
  [ lit "Source"; lit "Type"; lit "Date"; lit "Title (FR)"; lit "Title (EN)";
    lit "Appointee Name" ].


(** * Properties *)

Arguments ANONYMIZATION_PLACEHOLDER : simpl never.
Arguments PLACEHOLDER_WORD : simpl never.

(** ** Characters *)

Lemma lower_keeps_word (c : ascii) : is_word (lower c) = is_word c.
Proof. destruct c as [[] [] [] [] [] [] [] []]; vm_compute; reflexivity. Qed.

Lemma ci_eqb_true (a b : ascii) : ci_eqb a b = true <-> lower a = lower b.
Proof.
  unfold ci_eqb. destruct (ascii_dec (lower a) (lower b)); split; congruence.
Qed.

Lemma ci_eqb_word (a b : ascii) : ci_eqb a b = true -> is_word a = is_word b.
Proof.
  intros H. apply ci_eqb_true in H.
  rewrite <- (lower_keeps_word a), <- (lower_keeps_word b). now f_equal.
Qed.

Lemma lower_bracket (c : ascii) : is_bracket (lower c) = is_bracket c.
Proof. destruct c as [[] [] [] [] [] [] [] []]; vm_compute; reflexivity. Qed.

Lemma ci_eqb_bracket (a b : ascii) :
  ci_eqb a b = true -> is_bracket a = is_bracket b.
Proof.
  intros H. apply ci_eqb_true in H.
  rewrite <- (lower_bracket a), <- (lower_bracket b). now f_equal.
Qed.

Lemma bracket_not_word (c : ascii) : is_bracket c = true -> is_word c = false.
Proof.
  unfold is_bracket.
  destruct (ascii_dec c "["%char) as [->|_]; [reflexivity|].
  destruct (ascii_dec c "]"%char) as [->|_]; [reflexivity|discriminate].
Qed.

(** ** The pattern at a position *)

Lemma last_opt_app (p : option ascii) (x y : str) :
  last_opt p (x ++ y) = last_opt (last_opt p x) y.
Proof. revert p. induction x as [|c x IH]; intros p; simpl; auto. Qed.

Lemma last_opt_cons (p : option ascii) (c : ascii) (x : str) :
  exists z, last_opt p (c :: x) = Some z /\ In z (c :: x).
Proof.
  simpl. revert c. induction x as [|d x IH]; intros c; simpl.
  - exists c. auto.
  - destruct (IH d) as (z & Hz & Hin). exists z. split; [exact Hz|].
    right. exact Hin.
Qed.

Lemma last_opt_nonempty (p q : option ascii) (x : str) :
  x <> [] -> last_opt p x = last_opt q x.
Proof. destruct x as [|c x]; [congruence|reflexivity]. Qed.

(** A successful comparison splits the subject into the matched text and the
    rest. *)
Lemma prefix_ci_split (name : str) :
  forall p s q r,
    prefix_ci name p s = Some (q, r) ->
    exists x, s = x ++ r /\ length x = length name /\ q = last_opt p x
              /\ Forall2 (fun a c => ci_eqb a c = true) name x.
Proof.
  induction name as [|a name IH]; intros p s q r H; simpl in H.
  - inversion H; subst. exists []. repeat split; constructor.
  - destruct s as [|c s]; [discriminate|].
    destruct (ci_eqb a c) eqn:E; [|discriminate].
    destruct (IH _ _ _ _ H) as (x & -> & Hl & -> & HF).
    exists (c :: x). simpl. repeat split; auto.
Qed.

Lemma prefix_ci_app (name x : str) :
  Forall2 (fun a c => ci_eqb a c = true) name x ->
  forall p r, prefix_ci name p (x ++ r) = Some (last_opt p x, r).
Proof.
  induction 1 as [|a c name x Hac HF IH]; intros p r; simpl; [reflexivity|].
  rewrite Hac. apply IH.
Qed.

Lemma prefix_ci_nil (name : str) (p : option ascii) :
  name <> [] -> prefix_ci name p [] = None.
Proof. destruct name; [congruence|reflexivity]. Qed.

Lemma match_here_nil (name : str) (p : option ascii) :
  name <> [] -> match_here name p [] = false.
Proof.
  intros H. unfold match_here. rewrite (prefix_ci_nil _ p H).
  apply andb_false_r.
Qed.

Lemma match_here_true (name : str) (p : option ascii) (s : str) :
  match_here name p s = true <->
  boundary p (head_opt s) = true
  /\ exists q r, prefix_ci name p s = Some (q, r) /\ boundary q (head_opt r) = true.
Proof.
  unfold match_here. rewrite andb_true_iff. split.
  - intros [Hb Hm]. split; [exact Hb|].
    destruct (prefix_ci name p s) as [[q r]|]; [|discriminate].
    exists q, r. auto.
  - intros [Hb (q & r & -> & Hq)]. auto.
Qed.

(** ** The equations of the scan *)

Lemma sub_scan_skip (name x : str) :
  forall p r, sub_scan name p (length x) (x ++ r) = sub_scan name (last_opt p x) 0 r.
Proof.
  induction x as [|c x IH]; intros p r; simpl.
  - destruct r; reflexivity.
  - apply IH.
Qed.

Lemma sub_scan_keep (name : str) (p : option ascii) (c : ascii) (s : str) :
  match_here name p (c :: s) = false ->
  sub_scan name p 0 (c :: s) = c :: sub_scan name (Some c) 0 s.
Proof. intros H. simpl. rewrite H. reflexivity. Qed.

Lemma sub_scan_hit (name : str) (p : option ascii) (s : str) q r :
  name <> [] ->
  match_here name p s = true ->
  prefix_ci name p s = Some (q, r) ->
  sub_scan name p 0 s = ANONYMIZATION_PLACEHOLDER ++ sub_scan name q 0 r.
Proof.
  intros Hne Hm Hp.
  destruct name as [|a name']; [congruence|].
  destruct s as [|c s]; [discriminate|].
  change (sub_scan (a :: name') p 0 (c :: s))
    with (if match_here (a :: name') p (c :: s)
          then ANONYMIZATION_PLACEHOLDER
                 ++ sub_scan (a :: name') (Some c) (length name') s
          else c :: sub_scan (a :: name') (Some c) 0 s).
  rewrite Hm. f_equal.
  simpl in Hp. destruct (ci_eqb a c); [|discriminate].
  destruct (prefix_ci_split _ _ _ _ _ Hp) as (x & -> & Hl & -> & _).
  rewrite <- Hl. apply sub_scan_skip.
Qed.

Lemma sub_scan_hit_empty (p : option ascii) (c : ascii) (s : str) :
  match_here [] p (c :: s) = true ->
  sub_scan [] p 0 (c :: s)
  = ANONYMIZATION_PLACEHOLDER ++ c :: sub_scan [] (Some c) 0 s.
Proof. intros H. simpl sub_scan. rewrite H. reflexivity. Qed.

Lemma prefix_ci_shorter (name : str) p s q r :
  name <> [] -> prefix_ci name p s = Some (q, r) -> length r < length s.
Proof.
  intros Hne H. destruct (prefix_ci_split _ _ _ _ _ H) as (x & -> & Hl & _).
  rewrite length_app. destruct name; [congruence|]. simpl in Hl. lia.
Qed.

(** ** Reading the output of a pass against its input *)

Definition no_bracket (name : str) : Prop := existsb is_bracket name = false.

(** How the character [op] before a position of the output relates to the
    character [p] before the same position of the input: they are the same,
    or [op] ends a placeholder and the input has a word boundary there. *)
Definition link (p op : option ascii) (s : str) : Prop :=
  op = p \/ (word_opt op = false /\ boundary p (head_opt s) = true).

Lemma placeholder_shape :
  ANONYMIZATION_PLACEHOLDER = "["%char :: PLACEHOLDER_WORD ++ ["]"%char].
Proof. reflexivity. Qed.

Lemma placeholder_app (y : str) :
  ANONYMIZATION_PLACEHOLDER ++ y = "["%char :: PLACEHOLDER_WORD ++ "]"%char :: y.
Proof. reflexivity. Qed.

Lemma sub_scan_cases (m : str) (p : option ascii) (s : str) :
  (s = [] /\ sub_scan m p 0 s = [])
  \/ (exists Y, sub_scan m p 0 s = ANONYMIZATION_PLACEHOLDER ++ Y
                /\ boundary p (head_opt s) = true)
  \/ (exists c s', s = c :: s' /\ match_here m p s = false
                   /\ sub_scan m p 0 s = c :: sub_scan m (Some c) 0 s').
Proof.
  destruct s as [|c s].
  - simpl. destruct (match_here m p []) eqn:E.
    + right; left. exists []. split; [reflexivity|].
      apply match_here_true in E. tauto.
    + left. auto.
  - destruct (match_here m p (c :: s)) eqn:E.
    + right; left.
      assert (Hb : boundary p (head_opt (c :: s)) = true)
        by (apply match_here_true in E; tauto).
      destruct m as [|a m'].
      * rewrite (sub_scan_hit_empty _ _ _ E). eauto.
      * destruct (proj1 (match_here_true _ _ _) E) as (_ & q & r & Hp & _).
        assert (Hne : a :: m' <> []) by discriminate.
        rewrite (sub_scan_hit _ _ _ _ _ Hne E Hp). eauto.
    + right; right. exists c, s. repeat split; auto using sub_scan_keep.
Qed.

Lemma no_bracket_cons (a : ascii) (name : str) :
  no_bracket (a :: name) -> is_bracket a = false /\ no_bracket name.
Proof. unfold no_bracket. simpl. intros H. apply orb_false_iff in H. exact H. Qed.

Lemma prefix_ci_placeholder (a : ascii) (name : str) p Y :
  is_bracket a = false ->
  prefix_ci (a :: name) p (ANONYMIZATION_PLACEHOLDER ++ Y) = None.
Proof.
  intros Ha. rewrite placeholder_shape. simpl.
  destruct (ci_eqb a "[") eqn:E; [|reflexivity].
  apply ci_eqb_bracket in E. rewrite Ha in E. discriminate.
Qed.

(** A bracket-free name that matches a prefix of the output matches the same
    prefix of the input, and what follows it in the output is what follows
    it in the input, or a placeholder put at a word boundary of the input. *)
Lemma prefix_ci_scan (m name : str) :
  no_bracket name ->
  forall p s q r,
    prefix_ci name p (sub_scan m p 0 s) = Some (q, r) ->
    exists r0, prefix_ci name p s = Some (q, r0)
               /\ (head_opt r = head_opt r0
                   \/ (word_opt (head_opt r) = false
                       /\ boundary q (head_opt r0) = true)).
Proof.
  induction name as [|a name IH]; intros Hnb p s q r H.
  - simpl in H. inversion H; subst. exists s. split; [reflexivity|].
    destruct (sub_scan_cases m q s) as [[-> ->]|[(Y & -> & Hb)|(c & s' & -> & _ & ->)]].
    + left; reflexivity.
    + right. split; [reflexivity|exact Hb].
    + left; reflexivity.
  - apply no_bracket_cons in Hnb. destruct Hnb as [Ha Hnb].
    destruct (sub_scan_cases m p s) as [[-> E]|[(Y & E & Hb)|(c & s' & -> & _ & E)]];
      rewrite E in H.
    + discriminate.
    + rewrite (prefix_ci_placeholder _ _ _ _ Ha) in H. discriminate.
    + simpl in H |- *. destruct (ci_eqb a c); [|discriminate].
      apply (IH Hnb _ _ _ _ H).
Qed.

(** A match of a bracket-free name in the output, at a copied character, is
    a match in the input. *)
Lemma match_here_scan (m name : str) (p op : option ascii) (c : ascii) (s : str) :
  name <> [] -> no_bracket name ->
  link p op (c :: s) ->
  match_here name op (c :: sub_scan m (Some c) 0 s) = true ->
  match_here name p (c :: s) = true.
Proof.
  intros Hne Hnb Hl H.
  destruct name as [|a name]; [congruence|].
  apply no_bracket_cons in Hnb. destruct Hnb as [Ha Hnb].
  apply match_here_true in H. destruct H as (Hb & q & r & Hp & Hq).
  apply match_here_true. split.
  - destruct Hl as [->|[_ Hl]]; assumption.
  - simpl in Hp |- *. destruct (ci_eqb a c); [|discriminate].
    destruct (prefix_ci_scan m _ Hnb _ _ _ _ Hp) as (r0 & Hp0 & Hh).
    exists q, r0. split; [exact Hp0|].
    destruct Hh as [<-|[_ Hh]]; assumption.
Qed.

(** ** No match inside a placeholder *)

Lemma placeholder_word_is_word : Forall (fun c => is_word c = true) PLACEHOLDER_WORD.
Proof. repeat constructor. Qed.

Lemma placeholder_word_no_bracket :
  Forall (fun c => is_bracket c = false) PLACEHOLDER_WORD.
Proof. repeat constructor. Qed.

Lemma ci_str_eqb_Forall2 (a b : str) :
  Forall2 (fun x y => ci_eqb x y = true) a b -> ci_str_eqb a b = true.
Proof. induction 1; simpl; [reflexivity|]. now apply andb_true_iff. Qed.

Lemma ci_eqb_refl (a : ascii) : ci_eqb a a = true.
Proof. now apply ci_eqb_true. Qed.

Lemma ci_eqb_sym (a b : ascii) : ci_eqb a b = ci_eqb b a.
Proof.
  destruct (ci_eqb a b) eqn:E; destruct (ci_eqb b a) eqn:E'; auto.
  - apply ci_eqb_true in E. symmetry in E. apply ci_eqb_true in E. congruence.
  - apply ci_eqb_true in E'. symmetry in E'. apply ci_eqb_true in E'. congruence.
Qed.

Lemma ci_eqb_trans (a b c : ascii) :
  ci_eqb a b = true -> ci_eqb b c = true -> ci_eqb a c = true.
Proof. rewrite !ci_eqb_true. congruence. Qed.

Lemma ci_str_eqb_true (a b : str) :
  ci_str_eqb a b = true <-> Forall2 (fun x y => ci_eqb x y = true) a b.
Proof.
  split; [|apply ci_str_eqb_Forall2].
  revert b. induction a as [|x a IH]; intros [|y b] H; simpl in H;
    try discriminate; constructor.
  - now apply andb_true_iff in H.
  - apply IH. now apply andb_true_iff in H.
Qed.

Lemma Forall2_no_bracket (name x : str) :
  Forall2 (fun a c => ci_eqb a c = true) name x ->
  no_bracket name -> Forall (fun c => is_bracket c = false) x.
Proof.
  induction 1 as [|a c name x Hac HF IH]; intros Hnb; constructor.
  - apply no_bracket_cons in Hnb. apply ci_eqb_bracket in Hac.
    destruct Hnb. congruence.
  - apply IH. now apply no_bracket_cons in Hnb.
Qed.

(** A bracket-free prefix of [w ++ "]" ++ y] is a prefix of [w]. *)
Lemma bracket_free_prefix (w : str) :
  forall x r y,
    Forall (fun c => is_bracket c = false) x ->
    w ++ "]"%char :: y = x ++ r ->
    exists w', w = x ++ w' /\ r = w' ++ "]"%char :: y.
Proof.
  induction w as [|d w IH]; intros x r y Hx E.
  - destruct x as [|c x].
    + exists []. simpl in *. auto.
    + simpl in E. injection E as <- _.
      apply Forall_inv in Hx. discriminate.
  - destruct x as [|c x].
    + exists (d :: w). simpl in *. auto.
    + simpl in E. injection E as <- E.
      apply Forall_inv_tail in Hx.
      destruct (IH _ _ _ Hx E) as (w' & -> & ->). exists w'. auto.
Qed.

Lemma bracket_stops_match (name : str) (p : option ascii) (c : ascii) (s : str) :
  name <> [] -> no_bracket name ->
  is_bracket c = true -> match_here name p (c :: s) = false.
Proof.
  intros Hne Hnb Hc. unfold match_here.
  destruct name as [|a n']; [congruence|].
  apply no_bracket_cons in Hnb. destruct Hnb as [Ha _].
  simpl. destruct (ci_eqb a c) eqn:E; [|apply andb_false_r].
  apply ci_eqb_bracket in E. congruence.
Qed.

Section Plain.

Variable name : str.
Hypothesis name_plain : plain_name name = true.

Lemma plain_nonempty : name <> [].
Proof using name_plain.
  unfold plain_name in name_plain. destruct name; [discriminate|congruence].
Qed.

Lemma plain_no_bracket : no_bracket name.
Proof using name_plain.
  unfold plain_name in name_plain. unfold no_bracket.
  destruct (existsb is_bracket name); [|reflexivity].
  rewrite andb_false_r in name_plain. discriminate.
Qed.

Lemma plain_not_word : ci_str_eqb name PLACEHOLDER_WORD = false.
Proof using name_plain.
  unfold plain_name in name_plain.
  destruct (ci_str_eqb name PLACEHOLDER_WORD); [|reflexivity].
  rewrite andb_false_r in name_plain. discriminate.
Qed.

Lemma no_match_at_bracket (p : option ascii) (c : ascii) (s : str) :
  is_bracket c = true -> match_here name p (c :: s) = false.
Proof using name_plain.
  apply bracket_stops_match; [apply plain_nonempty|apply plain_no_bracket].
Qed.

(** No match starts inside the word of a placeholder. *)
Lemma no_match_in_word (w1 w2 y : str) :
  w1 ++ w2 = PLACEHOLDER_WORD -> w2 <> [] ->
  match_here name (last_opt (Some "["%char) w1) (w2 ++ "]"%char :: y) = false.
Proof using name_plain.
  intros Ew Hw2.
  destruct (match_here name _ _) eqn:Hm; [exfalso|reflexivity].
  apply match_here_true in Hm. destruct Hm as (Hb & q & r & Hp & Hq).
  pose proof placeholder_word_is_word as HW. rewrite <- Ew in HW.
  apply Forall_app in HW. destruct HW as [HW1 HW2].
  destruct w2 as [|c w2]; [congruence|].
  assert (Hc : is_word c = true) by now inversion HW2.
  (* the start boundary puts the match at the start of the word *)
  assert (w1 = []).
  { destruct w1 as [|d w1]; [reflexivity|exfalso].
    destruct (last_opt_cons (Some "["%char) d w1) as (z & Hz & Hin).
    rewrite Hz in Hb. unfold boundary in Hb. simpl in Hb.
    rewrite Forall_forall in HW1. rewrite (HW1 _ Hin), Hc in Hb. discriminate. }
  subst w1. simpl in Ew.
  destruct (prefix_ci_split _ _ _ _ _ Hp) as (x & Ex & Hlen & -> & HF).
  pose proof (Forall2_no_bracket _ _ HF plain_no_bracket) as Hx.
  destruct (bracket_free_prefix _ _ _ _ Hx Ex) as (w' & Ew' & ->).
  destruct w' as [|d w'].
  - rewrite app_nil_r in Ew'. rewrite <- Ew' in HF.
    apply ci_str_eqb_Forall2 in HF. rewrite Ew in HF.
    rewrite plain_not_word in HF. discriminate.
  - assert (Hd : is_word d = true).
    { rewrite Ew' in HW2. apply Forall_app in HW2. destruct HW2 as [_ H].
      now inversion H. }
    destruct x as [|e x].
    + apply Forall2_length in HF. apply length_zero_iff_nil in HF.
      now apply plain_nonempty.
    + destruct (last_opt_cons (Some "["%char) e x) as (z & Hz & Hin).
      change (last_opt (last_opt (Some "["%char) []) (e :: x))
        with (last_opt (Some "["%char) (e :: x)) in Hq.
      rewrite Hz in Hq. unfold boundary in Hq. simpl in Hq.
      assert (Hzw : is_word z = true).
      { rewrite Ew' in HW2. apply Forall_app in HW2. destruct HW2 as [H _].
        rewrite Forall_forall in H. now apply H. }
      rewrite Hzw, Hd in Hq. discriminate.
Qed.

Lemma search_past_word (y : str) :
  forall w2 w1,
    w1 ++ w2 = PLACEHOLDER_WORD ->
    search_from name (last_opt (Some "["%char) w1) (w2 ++ "]"%char :: y)
    = search_from name (Some "]"%char) y.
Proof using name_plain.
  induction w2 as [|c w2 IH]; intros w1 E.
  - simpl app. simpl search_from.
    rewrite no_match_at_bracket by reflexivity. reflexivity.
  - change (search_from name (last_opt (Some "["%char) w1) ((c :: w2) ++ "]"%char :: y))
      with ((match_here name (last_opt (Some "["%char) w1) ((c :: w2) ++ "]"%char :: y)
             || search_from name (Some c) (w2 ++ "]"%char :: y))%bool).
    rewrite (no_match_in_word _ _ _ E) by discriminate. simpl orb.
    specialize (IH (w1 ++ [c])). rewrite last_opt_app in IH. simpl in IH.
    apply IH. rewrite <- app_assoc. exact E.
Qed.

(** A search walks through a placeholder without a match. *)
Lemma search_past_placeholder (op : option ascii) (y : str) :
  search_from name op (ANONYMIZATION_PLACEHOLDER ++ y)
  = search_from name (Some "]"%char) y.
Proof using name_plain.
  rewrite placeholder_app.
  change (search_from name op ("["%char :: PLACEHOLDER_WORD ++ "]"%char :: y))
    with ((match_here name op ("["%char :: PLACEHOLDER_WORD ++ "]"%char :: y)
           || search_from name (Some "["%char) (PLACEHOLDER_WORD ++ "]"%char :: y))%bool).
  rewrite no_match_at_bracket by reflexivity. simpl orb.
  apply (search_past_word y PLACEHOLDER_WORD []). reflexivity.
Qed.

End Plain.

(** ** What a pass leaves behind *)

Lemma search_from_cons (name : str) (p : option ascii) (c : ascii) (s : str) :
  search_from name p (c :: s)
  = (match_here name p (c :: s) || search_from name (Some c) s)%bool.
Proof. reflexivity. Qed.

Lemma search_from_nil (name : str) (p : option ascii) :
  name <> [] -> search_from name p [] = false.
Proof. intros H. simpl. now rewrite match_here_nil. Qed.

Lemma search_from_app (name x : str) :
  forall p r,
    search_from name p (x ++ r) = false ->
    search_from name (last_opt p x) r = false.
Proof.
  induction x as [|c x IH]; intros p r H; [exact H|].
  simpl app in H. rewrite search_from_cons in H.
  apply orb_false_iff in H. destruct H as [_ H]. apply IH. exact H.
Qed.

Lemma sub_scan_hit_cases (m : str) (p : option ascii) (s : str) :
  match_here m p s = true ->
  (m = [] /\ s = [] /\ sub_scan m p 0 s = ANONYMIZATION_PLACEHOLDER)
  \/ (m = [] /\ exists c s', s = c :: s'
        /\ sub_scan m p 0 s
           = ANONYMIZATION_PLACEHOLDER ++ c :: sub_scan m (Some c) 0 s')
  \/ (m <> [] /\ exists q r, prefix_ci m p s = Some (q, r)
        /\ boundary q (head_opt r) = true
        /\ sub_scan m p 0 s = ANONYMIZATION_PLACEHOLDER ++ sub_scan m q 0 r).
Proof.
  intros Hm. destruct m as [|a m'].
  - destruct s as [|c s].
    + left. repeat split. simpl. now rewrite Hm.
    + right; left. split; [reflexivity|]. exists c, s. split; [reflexivity|].
      now apply sub_scan_hit_empty.
  - right; right. split; [discriminate|].
    destruct (proj1 (match_here_true _ _ _) Hm) as (_ & q & r & Hp & Hq).
    exists q, r. repeat split; auto.
    apply sub_scan_hit; auto. discriminate.
Qed.

Lemma sub_scan_miss_nil (m : str) (p : option ascii) :
  match_here m p [] = false -> sub_scan m p 0 [] = [].
Proof. intros H. simpl. now rewrite H. Qed.

Section PlainPass.

Variable name : str.
Hypothesis name_plain : plain_name name = true.

(** The output of a pass of [m] has no match of the plain name [name] when
    [m] is that name, or when the input had none. *)
Lemma scan_no_match (m : str) :
  forall k s, length s <= k ->
  forall p op,
    link p op s ->
    m = name \/ search_from name p s = false ->
    search_from name op (sub_scan m p 0 s) = false.
Proof using name_plain.
  pose proof (plain_nonempty _ name_plain) as Hne.
  pose proof (plain_no_bracket _ name_plain) as Hnb.
  induction k as [|k IH]; intros s Hlen p op Hl HK.
  - destruct s; [|simpl in Hlen; lia].
    destruct (match_here m p []) eqn:Hm.
    + destruct (sub_scan_hit_cases _ _ _ Hm)
        as [(_ & _ & ->)|[(_ & c & s' & E & _)|(Hm' & q & r & Hp & _)]].
      * rewrite <- (app_nil_r ANONYMIZATION_PLACEHOLDER).
        rewrite search_past_placeholder by assumption.
        now apply search_from_nil.
      * discriminate.
      * rewrite prefix_ci_nil in Hp by assumption. discriminate.
    + rewrite sub_scan_miss_nil by assumption. now apply search_from_nil.
  - destruct (match_here m p s) eqn:Hm.
    + destruct (sub_scan_hit_cases _ _ _ Hm)
        as [(_ & _ & ->)|[(Em & c & s' & -> & ->)|(Hm' & q & r & Hp & Hq & ->)]].
      * rewrite <- (app_nil_r ANONYMIZATION_PLACEHOLDER).
        rewrite search_past_placeholder by assumption.
        now apply search_from_nil.
      * rewrite search_past_placeholder by assumption.
        assert (Hs : search_from name p (c :: s') = false).
        { destruct HK as [HK|HK]; [congruence|exact HK]. }
        rewrite search_from_cons in Hs. apply orb_false_iff in Hs.
        destruct Hs as [Hs1 Hs2].
        rewrite search_from_cons. apply orb_false_iff. split.
        -- destruct (match_here name (Some "]"%char) (c :: sub_scan m (Some c) 0 s'))
             eqn:E; [|reflexivity].
           rewrite <- Hs1. symmetry.
           apply (match_here_scan m name p (Some "]"%char) c s'); auto.
           right. split; [reflexivity|].
           apply match_here_true in Hm. tauto.
        -- apply IH; [simpl in Hlen; lia|left; reflexivity|right; exact Hs2].
      * rewrite search_past_placeholder by assumption.
        apply IH.
        -- pose proof (prefix_ci_shorter _ _ _ _ _ Hm' Hp). lia.
        -- right. split; [reflexivity|exact Hq].
        -- destruct HK as [HK|HK]; [left; exact HK|right].
           destruct (prefix_ci_split _ _ _ _ _ Hp) as (x & -> & _ & -> & _).
           now apply search_from_app.
    + destruct s as [|c s'].
      * rewrite sub_scan_miss_nil by assumption. now apply search_from_nil.
      * rewrite sub_scan_keep by assumption.
        assert (Hs1 : match_here name p (c :: s') = false).
        { destruct HK as [HK|HK]; [congruence|].
          rewrite search_from_cons in HK. now apply orb_false_iff in HK. }
        rewrite search_from_cons. apply orb_false_iff. split.
        -- destruct (match_here name op (c :: sub_scan m (Some c) 0 s'))
             eqn:E; [|reflexivity].
           rewrite <- Hs1. symmetry.
           apply (match_here_scan m name p op c s'); auto.
        -- apply IH; [simpl in Hlen; lia|left; reflexivity|].
           destruct HK as [HK|HK]; [left; exact HK|right].
           rewrite search_from_cons in HK. now apply orb_false_iff in HK.
Qed.

Lemma re_sub_clears (text : str) : occurs name (re_sub name text) = false.
Proof using name_plain.
  apply (scan_no_match name (length text)); auto. left; reflexivity.
Qed.

Lemma re_sub_preserves (m text : str) :
  occurs name text = false -> occurs name (re_sub m text) = false.
Proof using name_plain.
  intros H. apply (scan_no_match m (length text)); auto. left; reflexivity.
Qed.

Lemma anonymize_preserves (names : list str) :
  forall text,
    occurs name text = false -> occurs name (anonymize_text text names) = false.
Proof using name_plain.
  induction names as [|m names IH]; intros text H; [exact H|].
  apply (IH (re_sub m text)). now apply re_sub_preserves.
Qed.

(** No match of a plain name of the list is left in the result. *)
Lemma anonymize_clears (names : list str) :
  forall text,
    In name names -> occurs name (anonymize_text text names) = false.
Proof using name_plain.
  induction names as [|m names IH]; intros text Hin; [destruct Hin|].
  destruct Hin as [->|Hin].
  - apply (anonymize_preserves names (re_sub name text)). apply re_sub_clears.
  - apply (IH (re_sub m text)). exact Hin.
Qed.

End PlainPass.

(** A pass over a text without a match copies it. *)
Lemma sub_scan_no_match (name : str) :
  forall s p, search_from name p s = false -> sub_scan name p 0 s = s.
Proof.
  induction s as [|c s IH]; intros p H.
  - simpl in H. rewrite orb_false_r in H. now apply sub_scan_miss_nil.
  - rewrite search_from_cons in H. apply orb_false_iff in H. destruct H as [H1 H2].
    rewrite sub_scan_keep by assumption. f_equal. now apply IH.
Qed.

Lemma anonymize_no_match (names : list str) (text : str) :
  (forall name, In name names -> occurs name text = false) ->
  anonymize_text text names = text.
Proof.
  induction names as [|m names IH]; intros H; [reflexivity|].
  simpl. unfold re_sub. rewrite sub_scan_no_match by (apply H; left; reflexivity).
  apply IH. intros name Hin. apply H. right. exact Hin.
Qed.

Lemma anonymize_idempotent_plain (names : list str) (text : str) :
  forallb plain_name names = true ->
  anonymize_text (anonymize_text text names) names = anonymize_text text names.
Proof.
  intros Hp. apply anonymize_no_match. intros name Hin.
  apply anonymize_clears; [|exact Hin].
  rewrite forallb_forall in Hp. now apply Hp.
Qed.

(** ** The regions a pass copies *)

Lemma replaced_incl (names names' : list str) :
  incl names names' ->
  forall p t o, replaced names p t o -> replaced names' p t o.
Proof.
  intros Hi p t o H. induction H.
  - constructor.
  - now constructor.
  - eapply replaced_hit; eauto.
Qed.

Lemma replaced_refl (names : list str) :
  forall t p, replaced names p t t.
Proof. induction t; intros p; now constructor. Qed.

Lemma placeholder_head (y : str) :
  head_opt (ANONYMIZATION_PLACEHOLDER ++ y) = Some "["%char.
Proof. reflexivity. Qed.

(** What follows a position in the output against what follows it in the
    input. *)
Lemma replaced_head (names : list str) p t o :
  replaced names p t o ->
  head_opt o = head_opt t
  \/ (word_opt (head_opt o) = false /\ boundary p (head_opt t) = true).
Proof.
  intros H. destruct H.
  - left; reflexivity.
  - left; reflexivity.
  - right. rewrite placeholder_head. split; [reflexivity|].
    apply match_here_true in H1. tauto.
Qed.

Lemma replaced_inv (names : list str) p t o :
  replaced names p t o ->
  (t = [] /\ o = [])
  \/ (exists c t' o', t = c :: t' /\ o = c :: o' /\ replaced names (Some c) t' o')
  \/ (exists name q r o', o = ANONYMIZATION_PLACEHOLDER ++ o'
        /\ In name names /\ name <> []
        /\ match_here name p t = true
        /\ prefix_ci name p t = Some (q, r)
        /\ replaced names q r o').
Proof.
  intros H. destruct H as [p|p c t o H|p name t q r o Hin Hne Hm Hp H].
  - left. auto.
  - right; left. exists c, t, o. auto.
  - right; right. exists name, q, r, o. auto 10.
Qed.

(** A bracket-free prefix of the output was copied from the input. *)
Lemma replaced_prefix (names : list str) (x : str) :
  Forall (fun c => is_bracket c = false) x ->
  forall p t r,
    replaced names p t (x ++ r) ->
    exists t', t = x ++ t' /\ replaced names (last_opt p x) t' r.
Proof.
  induction 1 as [|c x Hc Hx IH]; intros p t r H.
  - exists t. auto.
  - simpl app in H.
    destruct (replaced_inv _ _ _ _ H)
      as [[_ E]|[(c' & t' & o' & -> & E & H')|(name & q & r' & o' & E & _)]].
    + discriminate.
    + injection E as <- <-.
      destruct (IH _ _ _ H') as (t'' & -> & Ht''). exists t''. auto.
    + rewrite placeholder_app in E. injection E as -> _. discriminate.
Qed.

Section PlainCompose.

Variable m : str.
Hypothesis m_plain : plain_name m = true.

Lemma scan_past_word (y : str) :
  forall w2 w1,
    w1 ++ w2 = PLACEHOLDER_WORD ->
    sub_scan m (last_opt (Some "["%char) w1) 0 (w2 ++ "]"%char :: y)
    = w2 ++ "]"%char :: sub_scan m (Some "]"%char) 0 y.
Proof using m_plain.
  induction w2 as [|c w2 IH]; intros w1 E.
  - simpl app. rewrite sub_scan_keep; [reflexivity|].
    now apply no_match_at_bracket.
  - simpl app. rewrite sub_scan_keep.
    + f_equal. specialize (IH (w1 ++ [c])). rewrite last_opt_app in IH.
      apply IH. rewrite <- app_assoc. exact E.
    + apply (no_match_in_word m m_plain w1 (c :: w2) y E). discriminate.
Qed.

(** The scan walks through a placeholder and copies it. *)
Lemma scan_past_placeholder (op : option ascii) (y : str) :
  sub_scan m op 0 (ANONYMIZATION_PLACEHOLDER ++ y)
  = ANONYMIZATION_PLACEHOLDER ++ sub_scan m (Some "]"%char) 0 y.
Proof using m_plain.
  rewrite !placeholder_app. rewrite sub_scan_keep.
  - f_equal. apply (scan_past_word y PLACEHOLDER_WORD []). reflexivity.
  - now apply no_match_at_bracket.
Qed.

Variable names : list str.
Hypothesis m_listed : In m names.

(** A pass of a plain name over the output of earlier passes replaces
    matches of the input. *)
Lemma replaced_pass :
  forall k o1, length o1 <= k ->
  forall p op t,
    replaced names p t o1 ->
    link p op t ->
    replaced names p t (sub_scan m op 0 o1).
Proof using m_plain m_listed.
  pose proof (plain_nonempty _ m_plain) as Hne.
  pose proof (plain_no_bracket _ m_plain) as Hnb.
  induction k as [|k IH]; intros o1 Hlen p op t H Hl.
  - destruct o1; [|simpl in Hlen; lia].
    rewrite sub_scan_miss_nil by now apply match_here_nil. exact H.
  - destruct (replaced_inv _ _ _ _ H)
      as [[-> ->]|[(c & t0 & o & -> & -> & H')
                  |(name & q & r & o & -> & Hin & Hnn & Hmn & Hpn & H')]].
    + rewrite sub_scan_miss_nil by now apply match_here_nil. constructor.
    + (* a copied character *)
      destruct (match_here m op (c :: o)) eqn:Hm.
      * destruct (sub_scan_hit_cases _ _ _ Hm)
          as [(E & _)|[(E & _)|(_ & q & r1 & Hp & Hq & ->)]]; try congruence.
        destruct (prefix_ci_split _ _ _ _ _ Hp) as (x & Ex & Hlx & -> & HF).
        pose proof (Forall2_no_bracket _ _ HF Hnb) as Hx.
        assert (Hxne : x <> []).
        { intros ->. simpl in Hlx. symmetry in Hlx.
          now apply length_zero_iff_nil in Hlx. }
        rewrite Ex in H.
        destruct (replaced_prefix names x Hx _ _ _ H) as (t' & Et & Ht').
        rewrite (last_opt_nonempty op p x Hxne) in *.
        eapply replaced_hit with (name := m) (q := last_opt p x) (r := t').
        -- exact m_listed.
        -- exact Hne.
        -- apply match_here_true. split.
           ++ apply match_here_true in Hm. destruct Hm as [Hb _].
              destruct Hl as [->|[_ Hl]]; [exact Hb|exact Hl].
           ++ exists (last_opt p x), t'. split.
              ** rewrite Et. now apply prefix_ci_app.
              ** destruct (replaced_head _ _ _ _ Ht') as [<-|[_ Hh]]; assumption.
        -- rewrite Et. now apply prefix_ci_app.
        -- apply IH; [|exact Ht'|left; reflexivity].
           pose proof (prefix_ci_shorter _ _ _ _ _ Hne Hp) as Hs.
           simpl in Hs, Hlen. lia.
      * rewrite sub_scan_keep by assumption. constructor.
        apply IH; [simpl in Hlen; lia|assumption|left; reflexivity].
    + (* a placeholder of an earlier pass *)
      rewrite scan_past_placeholder.
      eapply replaced_hit; eauto.
      apply IH; [|assumption|].
      * rewrite length_app in Hlen.
        change (length ANONYMIZATION_PLACEHOLDER) with 19 in Hlen. lia.
      * right. split; [reflexivity|].
        apply match_here_true in Hmn. destruct Hmn as (_ & q' & r' & Hp' & Hq').
        rewrite Hpn in Hp'. injection Hp' as <- <-. exact Hq'.
Qed.

End PlainCompose.

Lemma anonymize_text_snoc (text : str) (names : list str) (m : str) :
  anonymize_text text (names ++ [m]) = re_sub m (anonymize_text text names).
Proof. unfold anonymize_text. now rewrite fold_left_app. Qed.

(** With plain names the result is the input with matches of the names
    replaced and everything else copied. *)
Lemma anonymize_replaced (text : str) :
  forall names,
    forallb plain_name names = true ->
    replaced names None text (anonymize_text text names).
Proof.
  induction names as [|m names IH] using rev_ind; intros Hp.
  - apply replaced_refl.
  - rewrite forallb_app in Hp. apply andb_true_iff in Hp. destruct Hp as [Hp Hm].
    simpl in Hm. rewrite andb_true_r in Hm.
    rewrite anonymize_text_snoc. unfold re_sub.
    apply (replaced_pass m Hm (names ++ [m])) with (k := length (anonymize_text text names)).
    + apply in_or_app. right. left. reflexivity.
    + apply le_n.
    + apply (replaced_incl names); [|now apply IH].
      intros x Hx. apply in_or_app. now left.
    + left. reflexivity.
Qed.

(** ** The pattern against the whole words of the specification *)

Lemma prefix_ci_starts (name : str) :
  forall p s,
    prefix_ci name p s
    = if starts_ci name s
      then Some (last_opt p (firstn (length name) s), skipn (length name) s)
      else None.
Proof.
  induction name as [|a name IH]; intros p s; simpl; [reflexivity|].
  destruct s as [|c s]; [reflexivity|].
  destruct (ci_eqb a c); simpl; [apply IH|reflexivity].
Qed.

Lemma starts_ci_app (name occ : str) :
  forall t,
    length occ = length name ->
    starts_ci name (occ ++ t) = ci_str_eqb name occ.
Proof.
  revert occ. induction name as [|a name IH]; intros [|c occ] t Hl;
    simpl in Hl; try discriminate; simpl; [reflexivity|].
  f_equal. apply IH. lia.
Qed.

Lemma starts_ci_split (name s : str) :
  starts_ci name s = true ->
  s = firstn (length name) s ++ skipn (length name) s
  /\ length (firstn (length name) s) = length name.
Proof.
  intros H. split; [symmetry; apply firstn_skipn|].
  revert s H. induction name as [|a name IH]; intros s H; [reflexivity|].
  destruct s as [|c s]; [discriminate|]. simpl in H |- *.
  apply andb_true_iff in H. destruct H as [_ H]. f_equal. now apply IH.
Qed.

Lemma word_edged_cons (name : str) :
  word_edged name = true ->
  exists a name', name = a :: name' /\ is_word a = true.
Proof.
  unfold word_edged. destruct name as [|a name']; [discriminate|].
  intros H. apply andb_true_iff in H. destruct H as [H _]. eauto.
Qed.

Lemma word_edged_nonempty (name : str) : word_edged name = true -> name <> [].
Proof. intros H. destruct (word_edged_cons _ H) as (a & n & -> & _). discriminate. Qed.

(** The text under a name ends with a character of the word status of the
    end of the name. *)
Lemma starts_ci_last (name : str) :
  forall p s,
    name <> [] -> starts_ci name s = true ->
    word_opt (last_opt p (firstn (length name) s)) = word_opt (last_opt None name).
Proof.
  induction name as [|a name IH]; intros p s Hne H; [congruence|].
  destruct s as [|c s]; [discriminate|]. simpl in H.
  apply andb_true_iff in H. destruct H as [Hac H].
  destruct name as [|b name].
  - simpl. symmetry. now apply ci_eqb_word.
  - change (last_opt p (firstn (length (a :: b :: name)) (c :: s)))
      with (last_opt (Some c) (firstn (length (b :: name)) s)).
    rewrite (IH (Some c) s) by (discriminate || assumption).
    reflexivity.
Qed.

(** For a name that begins and ends with a word character the pattern
    matches exactly at the whole-word occurrences of the name. *)
Lemma match_here_whole_word (name : str) (p : option ascii) (s : str) :
  word_edged name = true ->
  match_here name p s = whole_word_here name p s.
Proof.
  intros He. pose proof (word_edged_nonempty _ He) as Hne.
  unfold match_here, whole_word_here. rewrite prefix_ci_starts.
  destruct (starts_ci name s) eqn:Hs.
  - unfold boundary. rewrite (starts_ci_last name p s Hne Hs).
    unfold word_edged in He. apply andb_true_iff in He. destruct He as [Hh Hl].
    rewrite Hl.
    destruct name as [|a name']; [congruence|].
    destruct s as [|c s]; [discriminate|].
    simpl in Hs. apply andb_true_iff in Hs. destruct Hs as [Hac _].
    apply ci_eqb_word in Hac. simpl in Hh.
    cbn [head_opt word_opt]. rewrite <- Hac, Hh.
    simpl. rewrite !xorb_true_r. reflexivity.
  - simpl. apply andb_false_r.
Qed.

Lemma occurs_from_whole_word (name : str) :
  word_edged name = true ->
  forall s p, search_from name p s = whole_word_from name p s.
Proof.
  intros He. induction s as [|c s IH]; intros p; simpl;
    rewrite (match_here_whole_word _ _ _ He); [reflexivity|].
  now rewrite IH.
Qed.

Lemma occurs_whole_word (name text : str) :
  word_edged name = true -> occurs name text = whole_word_in name text.
Proof. intros He. now apply occurs_from_whole_word. Qed.

Lemma proper_plain (name : str) : proper_name name = true -> plain_name name = true.
Proof. unfold proper_name. intros H. now apply andb_true_iff in H. Qed.

Lemma proper_edged (name : str) : proper_name name = true -> word_edged name = true.
Proof. unfold proper_name. intros H. now apply andb_true_iff in H. Qed.

Lemma proper_names_plain (names : list str) :
  forallb proper_name names = true -> forallb plain_name names = true.
Proof.
  rewrite !forallb_forall. intros H x Hx. apply proper_plain. now apply H.
Qed.

(** Matches of names that begin and end with a word character are
    whole-word occurrences. *)
Lemma replaced_rewritten (names : list str) :
  (forall name, In name names -> word_edged name = true) ->
  forall p t o, replaced names p t o -> rewritten names p t o.
Proof.
  intros He p t o H.
  induction H as [p|p c t o H IH|p name t q r o Hin Hne Hm Hp H IH].
  - constructor.
  - now constructor.
  - destruct (prefix_ci_split _ _ _ _ _ Hp) as (occ & -> & Hl & -> & _).
    apply (rewritten_hit names p name occ r o); auto.
    now rewrite <- (match_here_whole_word _ _ _ (He name Hin)).
Qed.

(** With proper names the result is the input in which whole-word
    occurrences of the names are replaced and every other character is
    kept. *)
Lemma anonymize_rewritten (text : str) (names : list str) :
  forallb proper_name names = true ->
  rewritten names None text (anonymize_text text names).
Proof.
  intros Hp. apply replaced_rewritten.
  - intros name Hin. apply proper_edged.
    rewrite forallb_forall in Hp. now apply Hp.
  - apply anonymize_replaced. now apply proper_names_plain.
Qed.

(** No whole-word occurrence of a proper name of the list is left. *)
Lemma anonymize_clears_whole_word (names : list str) (name text : str) :
  proper_name name = true -> In name names ->
  whole_word_in name (anonymize_text text names) = false.
Proof.
  intros Hp Hin. rewrite <- occurs_whole_word by now apply proper_edged.
  apply anonymize_clears; [now apply proper_plain|exact Hin].
Qed.

(** One pass for a name that begins and ends with a word character replaces
    every whole-word occurrence of the name, from left to right. *)
Lemma sub_scan_replace_from (name : str) :
  word_edged name = true ->
  forall fuel s p,
    length s <= fuel -> sub_scan name p 0 s = replace_from fuel name p s.
Proof.
  intros He. pose proof (word_edged_nonempty _ He) as Hne.
  induction fuel as [|fuel IH]; intros s p Hlen.
  - destruct s; [|simpl in Hlen; lia].
    simpl. now rewrite match_here_nil.
  - destruct s as [|c s].
    + simpl. now rewrite match_here_nil.
    + cbn [replace_from].
      rewrite <- (match_here_whole_word _ _ _ He).
      destruct (match_here name p (c :: s)) eqn:Hm.
      * assert (Hp : prefix_ci name p (c :: s)
                     = Some (last_opt p (firstn (length name) (c :: s)),
                             skipn (length name) (c :: s))).
        { rewrite prefix_ci_starts.
          rewrite (match_here_whole_word _ _ _ He) in Hm.
          unfold whole_word_here in Hm.
          destruct (starts_ci name (c :: s)); [reflexivity|discriminate]. }
        rewrite (sub_scan_hit _ _ _ _ _ Hne Hm Hp). f_equal.
        apply IH. apply prefix_ci_shorter in Hp; [|exact Hne].
        simpl in Hp, Hlen. lia.
      * rewrite sub_scan_keep by exact Hm. f_equal. apply IH.
        simpl in Hlen. lia.
Qed.

Lemma re_sub_replace_whole_words (name text : str) :
  word_edged name = true -> re_sub name text = replace_whole_words name text.
Proof. intros He. now apply sub_scan_replace_from. Qed.

(** ** Names that differ by case only *)

Lemma ci_eqb_left (a b c : ascii) :
  ci_eqb a b = true -> ci_eqb a c = ci_eqb b c.
Proof. intros H. apply ci_eqb_true in H. unfold ci_eqb. now rewrite H. Qed.

Lemma ci_str_eqb_refl (a : str) : ci_str_eqb a a = true.
Proof.
  induction a as [|x a IH]; simpl; [reflexivity|].
  now rewrite ci_eqb_refl, IH.
Qed.

Lemma ci_str_eqb_length (m name : str) :
  ci_str_eqb m name = true -> length m = length name.
Proof.
  revert name. induction m as [|a m IH]; intros [|b name] H; simpl in H;
    try discriminate; [reflexivity|].
  apply andb_true_iff in H. destruct H as [_ H]. simpl. f_equal. now apply IH.
Qed.

Lemma prefix_ci_ci (m name : str) :
  ci_str_eqb m name = true ->
  forall p s, prefix_ci m p s = prefix_ci name p s.
Proof.
  revert name. induction m as [|a m IH]; intros [|b name] H p s; simpl in H;
    try discriminate; [reflexivity|].
  apply andb_true_iff in H. destruct H as [Hab H].
  destruct s as [|c s]; [reflexivity|]. simpl.
  rewrite (ci_eqb_left _ _ c Hab). destruct (ci_eqb b c); [|reflexivity].
  now apply IH.
Qed.

Lemma match_here_ci (m name : str) (p : option ascii) (s : str) :
  ci_str_eqb m name = true -> match_here m p s = match_here name p s.
Proof. intros H. unfold match_here. now rewrite (prefix_ci_ci _ _ H). Qed.

Lemma search_from_ci (m name : str) :
  ci_str_eqb m name = true ->
  forall s p, search_from m p s = search_from name p s.
Proof.
  intros H. induction s as [|c s IH]; intros p; cbn [search_from];
    rewrite (match_here_ci _ _ _ _ H); [reflexivity|].
  now rewrite IH.
Qed.

Lemma sub_scan_ci (m name : str) :
  ci_str_eqb m name = true ->
  forall s p k, sub_scan m p k s = sub_scan name p k s.
Proof.
  intros H. pose proof (ci_str_eqb_length _ _ H) as Hl.
  induction s as [|c s IH]; intros p k.
  - destruct k; cbn [sub_scan]; [|reflexivity].
    now rewrite (match_here_ci _ _ _ _ H).
  - destruct k as [|k]; cbn [sub_scan]; [|apply IH].
    rewrite (match_here_ci _ _ _ _ H).
    destruct (match_here name p (c :: s)); [|now rewrite IH].
    destruct m as [|a m], name as [|b name]; try discriminate.
    + reflexivity.
    + simpl in Hl. injection Hl as Hl. rewrite Hl. now rewrite IH.
Qed.

(** Where the names of the list other than [name], in any case, have no
    whole-word occurrence in the text, the loop is one pass for [name]. *)
Lemma anonymize_only_name (name : str) :
  proper_name name = true ->
  forall names text,
    forallb proper_name names = true ->
    only_name_in name names text = true ->
    anonymize_text text names
    = if existsb (fun m => ci_str_eqb m name) names
      then replace_whole_words name text
      else text.
Proof.
  intros Hn. induction names as [|m names IH]; intros text Hp Ho; [reflexivity|].
  cbn [forallb] in Hp. apply andb_true_iff in Hp. destruct Hp as [Hm Hp].
  unfold only_name_in in Ho. cbn [forallb] in Ho.
  apply andb_true_iff in Ho. destruct Ho as [Ho1 Ho].
  change (anonymize_text text (m :: names))
    with (anonymize_text (re_sub m text) names).
  cbn [existsb].
  destruct (ci_str_eqb m name) eqn:E.
  - cbn [orb]. unfold re_sub. rewrite (sub_scan_ci _ _ E).
    change (sub_scan name None 0 text) with (re_sub name text).
    rewrite <- (re_sub_replace_whole_words name text (proper_edged _ Hn)).
    apply anonymize_no_match. intros m' Hin.
    rewrite forallb_forall in Hp, Ho.
    specialize (Hp m' Hin). specialize (Ho m' Hin).
    destruct (ci_str_eqb m' name) eqn:E'.
    + unfold occurs. rewrite (search_from_ci _ _ E').
      apply (re_sub_clears name (proper_plain _ Hn)).
    + cbn [orb] in Ho. apply negb_true_iff in Ho.
      apply (re_sub_preserves m' (proper_plain _ Hp)).
      rewrite occurs_whole_word by now apply proper_edged.
      exact Ho.
  - cbn [orb] in Ho1 |- *. apply negb_true_iff in Ho1.
    unfold re_sub. rewrite sub_scan_no_match.
    + now apply IH.
    + change (occurs m text = false).
      rewrite occurs_whole_word by now apply proper_edged.
      exact Ho1.
Qed.

Lemma anonymize_only_listed_name (name : str) (names : list str) (text : str) :
  proper_name name = true ->
  forallb proper_name names = true ->
  In name names ->
  only_name_in name names text = true ->
  anonymize_text text names = replace_whole_words name text.
Proof.
  intros Hn Hp Hin Ho. rewrite (anonymize_only_name name Hn names text Hp Ho).
  assert (E : existsb (fun m => ci_str_eqb m name) names = true).
  { apply existsb_exists. exists name. split; [exact Hin|apply ci_str_eqb_refl]. }
  now rewrite E.
Qed.

(** ** Loops that append *)

Lemma for_each_append {A B : Type} (f : A -> list B)
  (body : list B -> A -> result (list B)) :
  (forall s a, body s a = Ok (s ++ f a)) ->
  forall l s, for_each l body s = Ok (s ++ flat_map f l).
Proof.
  intros Hb. induction l as [|a l IH]; intros s; simpl.
  - now rewrite app_nil_r.
  - rewrite Hb. simpl. rewrite IH. now rewrite <- app_assoc.
Qed.

Lemma for_each_snoc {A B : Type} (g : A -> B)
  (body : list B -> A -> result (list B)) :
  (forall s a, body s a = Ok (s ++ [g a])) ->
  forall l s, for_each l body s = Ok (s ++ map g l).
Proof.
  intros Hb l s. rewrite (for_each_append (fun a => [g a]) body Hb).
  assert (E : flat_map (fun a => [g a]) l = map g l)
    by (induction l as [|a l IH]; simpl; congruence).
  now rewrite E.
Qed.

Lemma str_eqb_eq (a b : str) : str_eqb a b = true <-> a = b.
Proof.
  revert b. induction a as [|x a IH]; intros [|y b]; simpl; split;
    try congruence; try discriminate.
  - intros H. apply andb_true_iff in H. destruct H as [H1 H2].
    apply Ascii.eqb_eq in H1. apply IH in H2. congruence.
  - intros H. injection H as -> ->. apply andb_true_iff. split.
    + apply Ascii.eqb_refl.
    + now apply IH.
Qed.

Lemma str_eqb_refl (a : str) : str_eqb a a = true.
Proof. now apply str_eqb_eq. Qed.

(** ** The nested extractor in closed form *)

Lemma collect_names_item_ok (all_sensitive_names : list str) (item : Act) :
  collect_names_item all_sensitive_names item
  = Ok (all_sensitive_names ++ act_names item).
Proof.
  unfold collect_names_item, act_names, appointee_name, replacement_name.
  destruct item as [d tf te [[[n|] [r|]]|] arts]; simpl;
    try (destruct (truthy r)); simpl;
    rewrite <- ?app_assoc, ?app_nil_r; reflexivity.
Qed.

Lemma collect_names_ok (data : Document) :
  collect_names data = Ok (nested_names data).
Proof.
  unfold collect_names, nested_names, all_acts, acts.
  rewrite flat_map_app.
  destruct data as [[decrees|] [orders|]]; simpl;
    rewrite ?(for_each_append act_names collect_names_item collect_names_item_ok);
    simpl;
    rewrite ?(for_each_append act_names collect_names_item collect_names_item_ok);
    rewrite ?app_nil_r; reflexivity.
Qed.

Lemma article_chunk_ok (names : list str) (unit_chunks : list Chunk)
  (ja : nat * Article) :
  article_chunk names unit_chunks ja = Ok (unit_chunks ++ [chunk_of names ja]).
Proof. destruct ja as [j article]. reflexivity. Qed.

Lemma act_unit_ok (type_label : string) (original_file_name : str)
  (names : list str) (units : list Unit) (act : Act) :
  act_unit type_label original_file_name names units act
  = Ok (units ++ [unit_of type_label original_file_name names act]).
Proof.
  unfold act_unit, unit_of, appointee_label, articles_of.
  assert (Hc : (if Field.contains (Articles act)
                then articles <- Field.subscript "Articles" (Articles act) ;;
                     for_each (enumerate articles) (article_chunk names) []
                else Ok [])
               = Ok (map (chunk_of names) (enumerate (Field.get (Articles act) [])))).
  { destruct (Articles act) as [articles|]; simpl; [|reflexivity].
    now rewrite (for_each_snoc (chunk_of names) (article_chunk names)
                   (article_chunk_ok names)). }
  rewrite Hc. simpl.
  destruct (appointee_name act) as [name|] eqn:En; unfold appointee_name in En;
    rewrite En; simpl.
  - destruct (str_eqb name NA) eqn:E; simpl; [|reflexivity].
    apply str_eqb_eq in E. subst name. reflexivity.
  - reflexivity.
Qed.

Lemma filter_and_chunk_json_data_ok (data : Document) (original_file_name : str) :
  filter_and_chunk_json_data data original_file_name
  = Ok (map (unit_of "Decree" original_file_name (nested_names data))
            (acts Key_Decrees data)
        ++ map (unit_of "Order" original_file_name (nested_names data))
               (acts Key_Orders data)).
Proof.
  unfold filter_and_chunk_json_data. rewrite collect_names_ok. simpl.
  unfold acts.
  destruct data as [[decrees|] [orders|]]; simpl;
    rewrite ?(for_each_snoc _ _ (act_unit_ok _ _ _)); simpl;
    rewrite ?(for_each_snoc _ _ (act_unit_ok _ _ _)); simpl;
    rewrite ?app_nil_r; reflexivity.
Qed.

(** ** Dicts *)

Lemma str_eqb_sym (a b : str) : str_eqb a b = str_eqb b a.
Proof.
  destruct (str_eqb a b) eqn:E.
  - apply str_eqb_eq in E. subst. symmetry. apply str_eqb_refl.
  - destruct (str_eqb b a) eqn:E'; [|reflexivity].
    apply str_eqb_eq in E'. subst. rewrite str_eqb_refl in E. discriminate.
Qed.

Lemma lookup_set_same (key : str) (v : value) (d : Dict.t) :
  Dict.lookup key (Dict.set key v d) = Some v.
Proof.
  induction d as [|[k v'] d IH]; simpl.
  - now rewrite str_eqb_refl.
  - destruct (str_eqb k key) eqn:E; simpl; rewrite E; auto.
Qed.

Lemma lookup_set_other (key key' : str) (v : value) (d : Dict.t) :
  str_eqb key key' = false ->
  Dict.lookup key' (Dict.set key v d) = Dict.lookup key' d.
Proof.
  intros Hk. induction d as [|[k v'] d IH]; simpl.
  - now rewrite Hk.
  - destruct (str_eqb k key) eqn:E; simpl.
    + apply str_eqb_eq in E. subst k. now rewrite Hk.
    + now rewrite IH.
Qed.


Lemma lookup_masked_fields (key : str) (row : Row) :
  str_eqb (lit "Name") key = false ->
  Dict.lookup key (masked_fields row) = Dict.lookup key (fields row).
Proof.
  intros Hk. unfold masked_fields.
  destruct (Dict.contains (lit "Name") (fields row)); [|reflexivity].
  now apply lookup_set_other.
Qed.


(** ** The anonymiser on a field *)

Lemma anonymize_value_str (names : list str) :
  forall s, anonymize_value (VStr s) names = Ok (VStr (anonymize_text s names)).
Proof.
  unfold anonymize_value, anonymize_text.
  induction names as [|m names IH]; intros s; simpl; [reflexivity|apply IH].
Qed.

Lemma anonymize_value_none (names : list str) :
  anonymize_value VNone names
  = match names with
    | [] => Ok VNone
    | _ :: _ => Raise TypeError
    end.
Proof. destruct names; reflexivity. Qed.

(** ** The flat extractor in closed form *)

Lemma collect_names_row_ok (names : list str) (row : Row) :
  collect_names_row names row = Ok (names ++ row_names row).
Proof.
  unfold collect_names_row, row_names, Dict.contains, Dict.subscript.
  destruct (Dict.lookup (lit "Name") (fields row)) as [[|name]|]; simpl.
  - now rewrite app_nil_r.
  - destruct (truthy name); simpl; now rewrite ?app_nil_r.
  - now rewrite app_nil_r.
Qed.

Lemma row_unit_cases (original_file_name : str) (names : list str)
  (units : list Unit) (ir : nat * Row) :
  row_unit original_file_name names units ir
  = if row_returns names (snd ir)
    then Ok (units ++ [row_unit_of original_file_name names ir])
    else Raise TypeError.
Proof.
  destruct ir as [i row].
  unfold row_unit, row_unit_of, row_metadata, row_content, row_returns,
    text_is_none.
  change (if Dict.contains (lit "Name") (fields row)
          then Dict.set (lit "Name") (VStr ANONYMIZATION_PLACEHOLDER) (fields row)
          else fields row) with (masked_fields row).
  unfold Dict.subscript, Dict.contains.
  rewrite (lookup_masked_fields (lit "Text_Content") row) by reflexivity.
  cbn [fst snd].
  destruct (Dict.lookup (lit "Date") (fields row)) as [date|];
    destruct (Dict.lookup (lit "Subject") (fields row)) as [subject|];
    destruct (Dict.lookup (lit "Text_Content") (fields row)) as [[|text]|] eqn:Etc;
    cbn [bind];
    rewrite ?anonymize_value_str, ?anonymize_value_none;
    try (destruct names as [|m names]);
    cbn [bind negb orb];
    rewrite ?lookup_set_same; cbn [bind];
    rewrite ?(lookup_masked_fields (lit "Text_Content") row) by reflexivity;
    rewrite ?Etc; reflexivity.
Qed.

Lemma row_unit_ok (original_file_name : str) (names : list str)
  (units : list Unit) (ir : nat * Row) :
  row_returns names (snd ir) = true ->
  row_unit original_file_name names units ir
  = Ok (units ++ [row_unit_of original_file_name names ir]).
Proof. intros H. now rewrite row_unit_cases, H. Qed.

(** A loop that appends one element per iteration, or raises. *)
Lemma for_each_cases {A B : Type} (ok : A -> bool) (g : A -> B) (e : exn)
  (body : list B -> A -> result (list B)) :
  (forall s a, body s a = if ok a then Ok (s ++ [g a]) else Raise e) ->
  forall l s,
    for_each l body s
    = if forallb ok l then Ok (s ++ map g l) else Raise e.
Proof.
  intros Hb. induction l as [|a l IH]; intros s; simpl.
  - now rewrite app_nil_r.
  - rewrite Hb. destruct (ok a); simpl; [|reflexivity].
    rewrite IH. destruct (forallb ok l); [|reflexivity].
    now rewrite <- app_assoc.
Qed.

Lemma forallb_enumerate {A : Type} (ok : A -> bool) (l : list A) :
  forallb (fun ia => ok (snd ia)) (enumerate l) = forallb ok l.
Proof.
  unfold enumerate. generalize 0.
  induction l as [|a l IH]; intros n; simpl; [reflexivity|].
  now rewrite IH.
Qed.

Lemma filter_and_chunk_csv_data_cases (data : list Row) (original_file_name : str) :
  filter_and_chunk_csv_data data original_file_name
  = if csv_returns data
    then Ok (map (row_unit_of original_file_name (csv_names data)) (enumerate data))
    else Raise TypeError.
Proof.
  unfold filter_and_chunk_csv_data.
  rewrite (for_each_append row_names collect_names_row collect_names_row_ok).
  simpl.
  rewrite (for_each_cases (fun ir => row_returns (csv_names data) (snd ir))
             (row_unit_of original_file_name (csv_names data)) TypeError
             _ (row_unit_cases original_file_name (csv_names data))).
  rewrite forallb_enumerate. reflexivity.
Qed.

Lemma filter_and_chunk_csv_data_ok (data : list Row) (original_file_name : str) :
  csv_returns data = true ->
  filter_and_chunk_csv_data data original_file_name
  = Ok (map (row_unit_of original_file_name (csv_names data)) (enumerate data)).
Proof. intros H. now rewrite filter_and_chunk_csv_data_cases, H. Qed.

(** Line 193 returns for every row of an input in which no text is [None],
    as when no row is shorter than the header. *)
Lemma csv_returns_texts (data : list Row) :
  forallb (fun row => negb (text_is_none row)) data = true ->
  csv_returns data = true.
Proof.
  unfold csv_returns, row_returns. rewrite !forallb_forall.
  intros H row Hin. now rewrite (H row Hin).
Qed.

Lemma filter_and_chunk_csv_data_inv (data : list Row) (original_file_name : str)
  (units : list Unit) :
  filter_and_chunk_csv_data data original_file_name = Ok units ->
  csv_returns data = true
  /\ units = map (row_unit_of original_file_name (csv_names data)) (enumerate data).
Proof.
  rewrite filter_and_chunk_csv_data_cases.
  destruct (csv_returns data); [|discriminate].
  intros H. injection H as <-. auto.
Qed.

(** ** The writer in closed form *)

Lemma fold_left_write {A : Type} (g : A -> str) (l : list A) :
  forall f, fold_left (fun f x => f_write f (g x)) l f = f ++ concat (map g l).
Proof.
  induction l as [|x l IH]; intros f; simpl.
  - now rewrite app_nil_r.
  - rewrite IH. unfold f_write. now rewrite <- app_assoc.
Qed.

Lemma write_chunk_block (f : str) (chunk : Chunk) :
  write_chunk f chunk = f_write f (chunk_block chunk).
Proof.
  unfold write_chunk, chunk_block, content_line, f_write.
  destruct chunk as [id [[|[|c fr]]|] [[|[|d en]]|]]; simpl;
    rewrite <- ?app_assoc; simpl; rewrite <- ?app_assoc; reflexivity.
Qed.

Lemma fold_left_write_chunk (l : list Chunk) :
  forall f, fold_left write_chunk l f = f ++ concat (map chunk_block l).
Proof.
  induction l as [|x l IH]; intros f; simpl.
  - now rewrite app_nil_r.
  - rewrite IH, write_chunk_block. unfold f_write. now rewrite <- app_assoc.
Qed.

Lemma write_unit_body (unit : Unit) : write_unit unit = spec_file_body unit.
Proof.
  unfold write_unit, spec_file_body.
  rewrite fold_left_write_chunk.
  change (fun f kv => f_write f (fst kv ++ lit ": " ++ format_value (snd kv) ++ newline))
    with (fun f kv => f_write f (metadata_line kv)).
  rewrite (fold_left_write metadata_line). unfold f_write.
  simpl. now rewrite <- app_assoc.
Qed.

Lemma fold_left_log {A : Type} (g : A -> list event) (l : list A) :
  forall log, fold_left (fun log x => log ++ g x) l log = log ++ flat_map g l.
Proof.
  induction l as [|x l IH]; intros log; simpl.
  - now rewrite app_nil_r.
  - rewrite IH. now rewrite <- app_assoc.
Qed.

Lemma write_chunks_to_files_ok (os : Platform) (units : list Unit) (sub : str) :
  write_chunks_to_files os units sub
  = (Makedirs (path_join os OUTPUT_DIR sub)
       :: flat_map (unit_events os sub) (enumerate units), RNone).
Proof.
  unfold write_chunks_to_files. f_equal.
  change (Makedirs (path_join os OUTPUT_DIR sub)
            :: flat_map (unit_events os sub) (enumerate units))
    with ([Makedirs (path_join os OUTPUT_DIR sub)]
            ++ flat_map (unit_events os sub) (enumerate units)).
  rewrite <- (fold_left_log (unit_events os sub) (enumerate units)
                [Makedirs (path_join os OUTPUT_DIR sub)]).
  generalize (enumerate units), [Makedirs (path_join os OUTPUT_DIR sub)].
  induction l as [|[i u] l IH]; intros log; simpl; [reflexivity|].
  rewrite IH. unfold unit_events, unit_filename. simpl.
  now rewrite write_unit_body.
Qed.

Lemma files_written_units (os : Platform) (sub : str) (l : list (nat * Unit)) :
  files_written (flat_map (unit_events os sub) l) = length l.
Proof.
  unfold files_written. induction l as [|iu l IH]; simpl; [reflexivity|].
  now rewrite IH.
Qed.

Lemma length_enumerate {A : Type} (l : list A) : length (enumerate l) = length l.
Proof.
  unfold enumerate. rewrite length_combine, length_seq. apply Nat.min_id.
Qed.

Lemma map_snd_combine_seq {A : Type} (l : list A) :
  forall a, map snd (combine (seq a (length l)) l) = l.
Proof. induction l as [|x l IH]; intros a; simpl; [reflexivity|]. now rewrite IH. Qed.

Lemma map_fst_combine_seq {A : Type} (l : list A) :
  forall a, map fst (combine (seq a (length l)) l) = seq a (length l).
Proof. induction l as [|x l IH]; intros a; simpl; [reflexivity|]. now rewrite IH. Qed.

Lemma Forall2_map_r {A B : Type} (R : A -> B -> Prop) (g : A -> B) (l : list A) :
  (forall a, In a l -> R a (g a)) -> Forall2 R l (map g l).
Proof.
  induction l as [|a l IH]; intros H; simpl; constructor.
  - apply H. now left.
  - apply IH. intros b Hb. apply H. now right.
Qed.

Lemma Forall2_enumerate {A B : Type} (R : A -> B -> Prop) (g : nat * A -> B)
  (l : list A) :
  (forall i a, R a (g (i, a))) -> Forall2 R l (map g (enumerate l)).
Proof.
  intros H. unfold enumerate. generalize 0.
  induction l as [|a l IH]; intros n; simpl; constructor; auto.
Qed.

Lemma Forall2_enumerate_in {A B : Type} (R : A -> B -> Prop) (g : nat * A -> B)
  (l : list A) :
  (forall i a, In a l -> R a (g (i, a))) -> Forall2 R l (map g (enumerate l)).
Proof.
  unfold enumerate. generalize 0.
  induction l as [|a l IH]; intros n H; simpl; constructor.
  - apply H. now left.
  - apply IH. intros i b Hb. apply H. now right.
Qed.

Lemma Forall2_and {A B : Type} (P Q : A -> B -> Prop) (l : list A) (l' : list B) :
  Forall2 P l l' -> Forall2 Q l l' ->
  Forall2 (fun a b => P a b /\ Q a b) l l'.
Proof.
  intros HP. induction HP as [|a b l l' Hab HP IH]; intros HQ.
  - constructor.
  - inversion HQ; subst. constructor; auto.
Qed.

Lemma chunk_ids (names : list str) (articles : list Article) :
  map Chunk_ID (map (chunk_of names) (enumerate articles))
  = map format_03d (seq 1 (length articles)).
Proof.
  rewrite map_map. unfold enumerate.
  rewrite <- seq_shift, map_map.
  rewrite <- (map_fst_combine_seq articles 0) at 2. rewrite map_map.
  apply map_ext. intros [j a]. simpl. f_equal. lia.
Qed.

(** ** Chunk ids as numbers *)

Lemma int_of_str_py_str (n : nat) : int_of_str (py_str n) = Some n.
Proof.
  unfold int_of_str, py_str, lit.
  rewrite string_of_list_ascii_of_string, NilEmpty.usu. simpl.
  now rewrite Unsigned.of_to.
Qed.

Lemma int_of_str_zero (s : str) : int_of_str ("0"%char :: s) = int_of_str s.
Proof.
  unfold int_of_str. simpl.
  destruct (NilEmpty.uint_of_string (string_of_list_ascii s)); reflexivity.
Qed.

Lemma int_of_str_zeros (k : nat) (s : str) :
  int_of_str (repeat "0"%char k ++ s) = int_of_str s.
Proof. induction k as [|k IH]; simpl; [reflexivity|]. now rewrite int_of_str_zero. Qed.

(** An id written by [format_03d] reads back as the number. *)
Lemma format_03d_value (n : nat) : int_of_str (format_03d n) = Some n.
Proof. unfold format_03d. rewrite int_of_str_zeros. apply int_of_str_py_str. Qed.

Lemma format_03d_inj (a b : nat) : format_03d a = format_03d b -> a = b.
Proof.
  intros H. apply (f_equal int_of_str) in H.
  rewrite !format_03d_value in H. congruence.
Qed.

Lemma format_03d_width (n : nat) : 3 <= length (format_03d n).
Proof. unfold format_03d. rewrite length_app, repeat_length. lia. Qed.

Lemma unit_of_matches (type_label : string) (f : str) (names : list str) (act : Act) :
  unit_matches type_label act (unit_of type_label f names act).
Proof.
  unfold unit_matches, unit_of. cbn [metadata chunks].
  rewrite chunk_ids. repeat split.
  - now rewrite length_map, length_enumerate.
  - rewrite map_map. apply map_ext. intros j. apply format_03d_value.
  - apply Forall_forall. intros id Hid. apply in_map_iff in Hid.
    destruct Hid as (j & <- & _). apply format_03d_width.
Qed.

(** ** Units and their texts *)

Lemma unit_texts_app (a b : list Unit) :
  unit_texts (a ++ b) = unit_texts a ++ unit_texts b.
Proof. unfold unit_texts. apply flat_map_app. Qed.

Lemma chunk_of_texts (names : list str) (ja : nat * Article) (content : str) :
  In content (chunk_texts (chunk_of names ja)) ->
  exists text, content = anonymize_text text names.
Proof.
  unfold chunk_texts, chunk_of. simpl.
  intros [<-|[<-|[]]]; eauto.
Qed.

Lemma unit_of_texts (type_label : string) (f : str) (names : list str)
  (l : list Act) (content : str) :
  In content (unit_texts (map (unit_of type_label f names) l)) ->
  exists text, content = anonymize_text text names.
Proof.
  unfold unit_texts. intros H.
  apply in_flat_map in H. destruct H as (u & Hu & H).
  apply in_map_iff in Hu. destruct Hu as (act & <- & _).
  apply in_flat_map in H. destruct H as (chunk & Hc & H).
  simpl in Hc. apply in_map_iff in Hc. destruct Hc as (ja & <- & _).
  now apply chunk_of_texts in H.
Qed.

Lemma act_names_appointee (act : Act) (name : str) :
  appointee_name act = Some name -> In name (act_names act).
Proof. unfold act_names. intros ->. now left. Qed.

Lemma act_names_replacement (act : Act) (r : str) :
  replacement_name act = Some r -> r <> [] -> In r (act_names act).
Proof.
  unfold act_names. intros -> Hr. apply in_or_app. right.
  destruct r; [congruence|]. now left.
Qed.

Lemma unit_of_appointee (type_label : string) (f : str) (names : list str)
  (act : Act) :
  Dict.lookup (lit "Appointee Name") (metadata (unit_of type_label f names act))
  = Some (VStr (appointee_label act)).
Proof. reflexivity. Qed.

Lemma unit_of_articles (type_label : string) (f : str) (names : list str)
  (act : Act) :
  Forall2 (anonymized_article names) (articles_of act)
          (chunks (unit_of type_label f names act)).
Proof.
  unfold unit_of. cbn [chunks]. apply Forall2_enumerate.
  intros i a. split; reflexivity.
Qed.

Lemma unit_of_rewritten (type_label : string) (f : str) (names : list str)
  (act : Act) :
  forallb proper_name names = true ->
  Forall2 (rewritten_article names) (articles_of act)
          (chunks (unit_of type_label f names act)).
Proof.
  intros Hp. unfold unit_of. cbn [chunks]. apply Forall2_enumerate.
  intros i a. unfold rewritten_article, chunk_of, text_of.
  cbn [Content_FR_out Content_EN_out snd].
  do 2 eexists. split; [reflexivity|]. split; [reflexivity|].
  split; now apply anonymize_rewritten.
Qed.

Lemma unit_of_replaced (type_label : string) (f : str) (name : str)
  (names : list str) (act : Act) :
  proper_name name = true ->
  forallb proper_name names = true ->
  In name names ->
  Forall2 (replaced_article name names) (articles_of act)
          (chunks (unit_of type_label f names act)).
Proof.
  intros Hn Hp Hin. unfold unit_of. cbn [chunks]. apply Forall2_enumerate.
  intros i a. unfold replaced_article, chunk_of, text_of.
  cbn [Content_FR_out Content_EN_out snd].
  split; intros Ho; do 2 f_equal; now apply anonymize_only_listed_name.
Qed.

Lemma unit_texts_units (f : str) (names : list str) (d o : list Act)
  (content : str) :
  In content (unit_texts (map (unit_of "Decree" f names) d
                          ++ map (unit_of "Order" f names) o)) ->
  exists text, content = anonymize_text text names.
Proof.
  intros Hc. rewrite unit_texts_app in Hc. apply in_app_or in Hc.
  destruct Hc as [Hc|Hc]; now apply unit_of_texts in Hc.
Qed.

Lemma nth_error_units (f : str) (names : list str) (d o : list Act)
  (i : nat) (act : Act) :
  nth_error (d ++ o) i = Some act ->
  exists type_label,
    nth_error (map (unit_of "Decree" f names) d ++ map (unit_of "Order" f names) o) i
    = Some (unit_of type_label f names act).
Proof.
  intros H. destruct (Nat.lt_ge_cases i (length d)) as [Hi|Hi].
  - rewrite nth_error_app1 in H by assumption.
    exists "Decree"%string. rewrite nth_error_app1 by now rewrite length_map.
    now apply map_nth_error.
  - rewrite nth_error_app2 in H by assumption.
    exists "Order"%string. rewrite nth_error_app2 by now rewrite length_map.
    rewrite length_map. now apply map_nth_error.
Qed.

Example empty_name_reaches_anonymizer :
  collect_names
    {| Decrees := Some [ {| Date := None; Title_FR := None; Title_EN := None;
                            Appointee := Some {| Name := Some [];
                                                 Replacement := Some [] |};
                            Articles := None |} ];
       Orders := None |}
  = Ok [ [] ]
  /\ for_each [ {| fields := [(lit "Name", VStr [])]; rest := [] |} ]
       collect_names_row []
     = Ok [].
Proof. split; reflexivity. Qed.

(** ** File names on a POSIX platform *)

Lemma posix_join_inj (a x y1 y2 : str) :
  posix_join a (x ++ "_"%char :: y1) = posix_join a (x ++ "_"%char :: y2) ->
  y1 = y2.
Proof.
  unfold posix_join.
  assert (Hs : forall y,
             match x ++ "_"%char :: y with
             | c :: _ => Ascii.eqb c "/"%char
             | [] => false
             end
             = match x with c :: _ => Ascii.eqb c "/"%char | [] => false end)
    by (intros y; destruct x; reflexivity).
  rewrite !Hs.
  destruct (match x with c :: _ => Ascii.eqb c "/"%char | [] => false end).
  - intros H. apply app_inv_head in H. congruence.
  - destruct (last_opt None a) as [c|].
    + destruct (Ascii.eqb c "/"%char); intros H;
        repeat (apply app_inv_head in H); congruence.
    + intros H. apply app_inv_head in H. congruence.
Qed.

(** The writer never writes the same file twice. *)
Lemma posix_filenames_distinct jsons csvs (output_sub_dir : str) (i j : nat) :
  unit_filename (posix jsons csvs) output_sub_dir i
  = unit_filename (posix jsons csvs) output_sub_dir j ->
  i = j.
Proof.
  unfold unit_filename. cbn [path_join posix]. intros H.
  apply (posix_join_inj _ output_sub_dir) in H.
  apply (app_inv_head (lit "unit_")) in H. apply app_inv_tail in H.
  apply format_03d_inj in H. lia.
Qed.
Example anonymize_whole_word :
  anonymize_text (lit "Annual report by Ann") [lit "Ann"]
  = lit "Annual report by [ANONYMIZED_PERSON]".
Proof. reflexivity. Qed.

Example anonymize_ignores_case :
  anonymize_text (lit "ANN signed it") [lit "Ann"]
  = lit "[ANONYMIZED_PERSON] signed it".
Proof. reflexivity. Qed.

Example anonymize_two_names :
  anonymize_text (lit "Bob Thebuilder designed it. Ask Bob or alice.")
                 [lit "Alice"; lit "Bob Thebuilder"]
  = lit "[ANONYMIZED_PERSON] designed it. Ask Bob or [ANONYMIZED_PERSON].".
Proof. reflexivity. Qed.

Example anonymize_dot_name :
  anonymize_text (lit "see John Jr. and John Jr.x") [lit "John Jr."]
  = lit "see John Jr. and [ANONYMIZED_PERSON]x".
Proof. reflexivity. Qed.

Example anonymize_empty_name :
  anonymize_text (lit "a b") [lit ""]
  = lit "[ANONYMIZED_PERSON]a[ANONYMIZED_PERSON] [ANONYMIZED_PERSON]b[ANONYMIZED_PERSON]".
Proof. reflexivity. Qed.

Example format_03d_samples :
  map format_03d [1; 12; 123; 1000]
  = [lit "001"; lit "012"; lit "123"; lit "1000"].
Proof. reflexivity. Qed.

(** * The claims *)

(** ** The anonymiser *)

(** Claim C1, as stated, fails: the pass for a name that is the word of the
    placeholder replaces the name by the placeholder, and the name is a
    whole word of the result. *)
Lemma anonymize_text_leaves_clash :
  In Sample.clash [Sample.clash]
  /\ anonymize_text Sample.clash [Sample.clash] = ANONYMIZATION_PLACEHOLDER
  /\ occurs Sample.clash (anonymize_text Sample.clash [Sample.clash]) = true
  /\ whole_word_in Sample.clash (anonymize_text Sample.clash [Sample.clash])
     = true.
Proof. repeat split. now left. Qed.

(** Claim C1, amended.  When every name of the list is proper (not empty, no
    square bracket, not the word of the placeholder in any case, a word
    character at its first and at its last place), the result of
    [anonymize_text] has no case-insensitive whole-word occurrence of any
    name of the list, an occurrence being whole-word when no word character
    stands next to it on either side; and the result is the input in which
    whole-word occurrences of names of the list, one after the other
    without overlap, are replaced by the placeholder and every other
    character is kept, in order. *)
Theorem anonymize_text_proper_names (text : str) (names : list str) :
  forallb proper_name names = true ->
  (forall name,
     In name names -> whole_word_in name (anonymize_text text names) = false)
  /\ rewritten names None text (anonymize_text text names).
Proof.
  intros Hp. split.
  - intros name Hin. apply anonymize_clears_whole_word; [|exact Hin].
    rewrite forallb_forall in Hp. now apply Hp.
  - now apply anonymize_rewritten.
Qed.

Lemma anonymize_text_proper_names_witness :
  forallb proper_name Sample.names = true
  /\ (forall name, In name Sample.names ->
        whole_word_in name (anonymize_text Sample.text Sample.names) = false)
  /\ rewritten Sample.names None Sample.text
       (anonymize_text Sample.text Sample.names).
Proof.
  split; [reflexivity|].
  apply (anonymize_text_proper_names Sample.text Sample.names). reflexivity.
Defined.

(** Claim C4.  The call returns for every text and every list of names, but
    an empty name is not guarded against: its pattern matches the empty
    string at every word boundary and a placeholder is put there. *)
Theorem anonymize_text_empty_name :
  anonymize_text (lit "a b") [lit ""]
  = lit "[ANONYMIZED_PERSON]a[ANONYMIZED_PERSON] [ANONYMIZED_PERSON]b[ANONYMIZED_PERSON]"
  /\ anonymize_text (lit "a b") [lit ""] <> lit "a b".
Proof. split; [reflexivity|discriminate]. Qed.

(** Claim C5, as stated, fails: the placeholder re-matches a name that is
    its own word, and a second call wraps it once more. *)
Lemma anonymize_text_twice_clash :
  anonymize_text (anonymize_text Sample.clash [Sample.clash]) [Sample.clash]
  = lit "[[ANONYMIZED_PERSON]]"
  /\ anonymize_text (anonymize_text Sample.clash [Sample.clash]) [Sample.clash]
     <> anonymize_text Sample.clash [Sample.clash].
Proof. split; [reflexivity|discriminate]. Qed.

(** Claim C5, amended.  [anonymize_text] is idempotent when every name of the
    list is plain: the placeholder then never matches a name again. *)
Theorem anonymize_text_idempotent_plain (text : str) (names : list str) :
  forallb plain_name names = true ->
  anonymize_text (anonymize_text text names) names = anonymize_text text names.
Proof.
  intros Hp. apply anonymize_no_match. intros name Hin.
  apply anonymize_clears; [|exact Hin].
  rewrite forallb_forall in Hp. now apply Hp.
Qed.

Lemma anonymize_text_idempotent_plain_witness :
  forallb plain_name Sample.names = true
  /\ anonymize_text (anonymize_text Sample.text Sample.names) Sample.names
     = anonymize_text Sample.text Sample.names.
Proof.
  split; [reflexivity|].
  apply (anonymize_text_idempotent_plain Sample.text Sample.names). reflexivity.
Defined.

(** ** The nested extractor *)

(** Claim C2, as stated, fails: an appointee whose name is present and is
    the string "N/A" keeps that name in the metadata of its unit. *)
Lemma appointee_NA_shown :
  appointee_name Sample.unnamed = Some NA
  /\ exists u,
       filter_and_chunk_json_data
         {| Decrees := Some [Sample.unnamed]; Orders := None |} (lit "f.json")
       = Ok [u]
       /\ Dict.lookup (lit "Appointee Name") (metadata u) = Some (VStr NA)
       /\ Dict.lookup (lit "Appointee Name") (metadata u)
          <> Some (VStr ANONYMIZATION_PLACEHOLDER).
Proof.
  split; [reflexivity|]. eexists. split; [reflexivity|].
  split; [reflexivity|discriminate].
Qed.

(** Claim C2, amended.  The names are collected over both collections before
    any act is processed: the appointee name of every act, and every
    replacement name that is not empty.  The unit of an act whose appointee
    name is present and is not "N/A" has the placeholder as its
    ["Appointee Name"].  The two texts of every article of either collection
    are passed through [anonymize_text] with the whole list: no content of
    any unit keeps a whole-word occurrence of a collected name that is
    proper, whatever act the name comes from, and when every collected name
    is proper each content is the text of its article in which whole-word
    occurrences of collected names are replaced by the placeholder and
    every other character is kept. *)
Theorem nested_names_masked (data : Document) (original_file_name : str) :
  exists names units,
    collect_names data = Ok names
    /\ filter_and_chunk_json_data data original_file_name = Ok units
    /\ (forall act name,
          In act (all_acts data) -> appointee_name act = Some name ->
          In name names)
    /\ (forall act r,
          In act (all_acts data) -> replacement_name act = Some r -> r <> [] ->
          In r names)
    /\ Forall2
         (fun act u =>
            (forall name,
               appointee_name act = Some name -> name <> NA ->
               Dict.lookup (lit "Appointee Name") (metadata u)
               = Some (VStr ANONYMIZATION_PLACEHOLDER))
            /\ Forall2 (anonymized_article names) (articles_of act) (chunks u)
            /\ (forallb proper_name names = true ->
                Forall2 (rewritten_article names) (articles_of act) (chunks u)))
         (all_acts data) units
    /\ (forall name content,
          In name names -> proper_name name = true ->
          In content (unit_texts units) ->
          whole_word_in name content = false).
Proof.
  exists (nested_names data). eexists.
  split; [apply collect_names_ok|].
  split; [apply filter_and_chunk_json_data_ok|].
  split; [|split; [|split]].
  - intros act name Hin Hn. unfold nested_names. apply in_flat_map.
    exists act. split; [exact Hin|]. now apply act_names_appointee.
  - intros act r Hin Hr Hne. unfold nested_names. apply in_flat_map.
    exists act. split; [exact Hin|]. now apply act_names_replacement.
  - unfold all_acts. apply Forall2_app; apply Forall2_map_r; intros act _;
      (split; [|split; [apply unit_of_articles|apply unit_of_rewritten]]);
      intros name Hn Hne; rewrite unit_of_appointee; unfold appointee_label;
      rewrite Hn; (destruct (str_eqb name NA) eqn:E; [|reflexivity]);
      apply str_eqb_eq in E; congruence.
  - intros name content Hin Hp Hc.
    apply unit_texts_units in Hc. destruct Hc as [text ->].
    now apply anonymize_clears_whole_word.
Qed.

Lemma nested_names_masked_witness :
  exists names units,
    collect_names Sample.document = Ok names
    /\ filter_and_chunk_json_data Sample.document (lit "f.json") = Ok units
    /\ (forall act name,
          In act (all_acts Sample.document) -> appointee_name act = Some name ->
          In name names)
    /\ (forall act r,
          In act (all_acts Sample.document) -> replacement_name act = Some r ->
          r <> [] -> In r names)
    /\ Forall2
         (fun act u =>
            (forall name,
               appointee_name act = Some name -> name <> NA ->
               Dict.lookup (lit "Appointee Name") (metadata u)
               = Some (VStr ANONYMIZATION_PLACEHOLDER))
            /\ Forall2 (anonymized_article names) (articles_of act) (chunks u)
            /\ (forallb proper_name names = true ->
                Forall2 (rewritten_article names) (articles_of act) (chunks u)))
         (all_acts Sample.document) units
    /\ (forall name content,
          In name names -> proper_name name = true ->
          In content (unit_texts units) ->
          whole_word_in name content = false).
Proof. exact (nested_names_masked Sample.document (lit "f.json")). Defined.

(** The names of the sample document are proper, and a name of the first
    act is replaced in the text of the second. *)
Example nested_sample_contents :
  forallb proper_name (nested_names Sample.document) = true
  /\ exists u1 u2,
       filter_and_chunk_json_data Sample.document (lit "f.json") = Ok [u1; u2]
       /\ map Content_FR_out (chunks u1)
          = [ Some (VStr (lit "Est nommee : [ANONYMIZED_PERSON], en remplacement de [ANONYMIZED_PERSON]."));
              Some (VStr (lit "Le present decret sera publie.")) ]
       /\ map Content_EN_out (chunks u2)
          = [ Some (VStr (lit "Rank: [ANONYMIZED_PERSON]. Signed before [ANONYMIZED_PERSON].")) ].
Proof. split; [reflexivity|]. do 2 eexists. repeat split. Qed.

(** Claim C6.  Nested extraction returns one unit per act, the units of the
    decrees before those of the orders, each in source order; a unit has as
    many chunks as its act has articles, with ids ["001"], ["002"], ... in
    that order. *)
Theorem json_one_unit_per_act (data : Document) (original_file_name : str) :
  exists decree_units order_units,
    filter_and_chunk_json_data data original_file_name
    = Ok (decree_units ++ order_units)
    /\ Forall2 (unit_matches "Decree") (acts Key_Decrees data) decree_units
    /\ Forall2 (unit_matches "Order") (acts Key_Orders data) order_units.
Proof.
  do 2 eexists. split; [apply filter_and_chunk_json_data_ok|].
  split; apply Forall2_map_r; intros act _; apply unit_of_matches.
Qed.

(** Claim C10, as stated, fails in its last part: where another collected
    name is a part of "N/A" and comes first in the list, its pass takes
    that part, and the whole-word occurrence of "N/A" is not replaced by
    the placeholder. *)
Lemma appointee_NA_partly_replaced :
  appointee_name Sample.unnamed = Some NA
  /\ collect_names Sample.overlapping = Ok [lit "A"; NA]
  /\ whole_word_in NA (lit "Rank: N/A. Signed before Jane Doe.") = true
  /\ replace_whole_words NA (lit "Rank: N/A. Signed before Jane Doe.")
     = lit "Rank: [ANONYMIZED_PERSON]. Signed before Jane Doe."
  /\ exists u1 u2,
       filter_and_chunk_json_data Sample.overlapping (lit "f.json")
       = Ok [u1; u2]
       /\ map Content_EN_out (chunks u2)
          = [ Some (VStr (lit "Rank: N/[ANONYMIZED_PERSON]. Signed before Jane Doe.")) ]
       /\ map Content_EN_out (chunks u2)
          <> [ Some (VStr (replace_whole_words NA
                             (lit "Rank: N/A. Signed before Jane Doe."))) ].
Proof.
  split; [reflexivity|]. split; [reflexivity|]. split; [reflexivity|].
  split; [reflexivity|]. do 2 eexists. split; [reflexivity|].
  split; [reflexivity|discriminate].
Qed.

(** Claim C10, amended.  An act whose appointee name is the string "N/A"
    keeps "N/A" as the ["Appointee Name"] of its unit, as an act without a
    name does; the string is in the list of names all the same, and no
    content of any unit has a whole-word occurrence of "N/A" left.  When
    every collected name is proper, each content is the text of its article
    in which whole-word occurrences of collected names are replaced by the
    placeholder and every other character is kept; and where no collected
    name other than "N/A", in any case, has a whole-word occurrence in the
    text, the content is the text with every whole-word occurrence of "N/A"
    replaced by the placeholder. *)
Theorem appointee_NA_kept_and_listed (data : Document) (original_file_name : str)
  (i : nat) (act : Act) :
  nth_error (all_acts data) i = Some act ->
  appointee_name act = Some NA ->
  exists names units u,
    collect_names data = Ok names
    /\ In NA names
    /\ filter_and_chunk_json_data data original_file_name = Ok units
    /\ nth_error units i = Some u
    /\ Dict.lookup (lit "Appointee Name") (metadata u) = Some (VStr NA)
    /\ Forall (fun content => whole_word_in NA content = false)
              (unit_texts units)
    /\ (forallb proper_name names = true ->
        Forall2
          (fun act' u' =>
             Forall2
               (fun article chunk =>
                  rewritten_article names article chunk
                  /\ replaced_article NA names article chunk)
               (articles_of act') (chunks u'))
          (all_acts data) units).
Proof.
  intros Hi Hn.
  destruct (nth_error_units original_file_name (nested_names data) _ _ _ _ Hi)
    as [type_label Hu].
  exists (nested_names data). eexists.
  exists (unit_of type_label original_file_name (nested_names data) act).
  assert (Hin : In NA (nested_names data)).
  { unfold nested_names. apply in_flat_map. exists act. split.
    - eapply nth_error_In. exact Hi.
    - now apply act_names_appointee. }
  split; [apply collect_names_ok|].
  split; [exact Hin|].
  split; [apply filter_and_chunk_json_data_ok|].
  split; [exact Hu|].
  split; [|split].
  - rewrite unit_of_appointee. unfold appointee_label. rewrite Hn. reflexivity.
  - apply Forall_forall. intros content Hc.
    apply unit_texts_units in Hc. destruct Hc as [text ->].
    now apply anonymize_clears_whole_word.
  - intros Hp. unfold all_acts.
    apply Forall2_app; apply Forall2_map_r; intros act' _;
      (apply Forall2_and;
       [now apply unit_of_rewritten|now apply unit_of_replaced]).
Qed.

Lemma appointee_NA_kept_and_listed_witness :
  nth_error (all_acts Sample.document) 1 = Some Sample.unnamed
  /\ appointee_name Sample.unnamed = Some NA
  /\ exists names units u,
       collect_names Sample.document = Ok names
       /\ In NA names
       /\ filter_and_chunk_json_data Sample.document (lit "f.json") = Ok units
       /\ nth_error units 1 = Some u
       /\ Dict.lookup (lit "Appointee Name") (metadata u) = Some (VStr NA)
       /\ Forall (fun content => whole_word_in NA content = false)
                 (unit_texts units)
       /\ (forallb proper_name names = true ->
           Forall2
             (fun act' u' =>
                Forall2
                  (fun article chunk =>
                     rewritten_article names article chunk
                     /\ replaced_article NA names article chunk)
                  (articles_of act') (chunks u'))
             (all_acts Sample.document) units).
Proof.
  split; [reflexivity|]. split; [reflexivity|].
  apply (appointee_NA_kept_and_listed Sample.document (lit "f.json") 1 Sample.unnamed);
    reflexivity.
Defined.

(** In the sample document "N/A" is the only collected name with a
    whole-word occurrence in the French text of the second act, and each
    occurrence there, in either case, is replaced. *)
Example appointee_NA_sample :
  only_name_in NA (nested_names Sample.document) (lit "Rang: n/a (N/A)") = true
  /\ replace_whole_words NA (lit "Rang: n/a (N/A)")
     = lit "Rang: [ANONYMIZED_PERSON] ([ANONYMIZED_PERSON])"
  /\ exists u1 u2,
       filter_and_chunk_json_data Sample.document (lit "f.json") = Ok [u1; u2]
       /\ map Content_FR_out (chunks u2)
          = [ Some (VStr (lit "Rang: [ANONYMIZED_PERSON] ([ANONYMIZED_PERSON])")) ].
Proof. split; [reflexivity|]. split; [reflexivity|]. do 2 eexists. repeat split. Qed.

(** ** The flat extractor *)








Example csv_sample_contents :
  forallb proper_name (csv_names Sample.rows) = true
  /\ exists u1 u2,
       filter_and_chunk_csv_data Sample.rows (lit "f.csv") = Ok [u1; u2]
       /\ map Chunk_ID (chunks u1) = [lit "001"]
       /\ map Content_EN_out (chunks u1)
          = [ Some (VStr (lit "Led by [ANONYMIZED_PERSON]. [ANONYMIZED_PERSON] presented.")) ]
       /\ map Chunk_ID (chunks u2) = [lit "001"].
Proof. split; [reflexivity|]. do 2 eexists. repeat split. Qed.

(** ** Missing fields *)

Lemma unit_of_sentinel (type_label : string) (f : str) (names : list str)
  (act : Act) :
  sentinel_metadata act (unit_of type_label f names act).
Proof.
  unfold sentinel_metadata, unit_of. cbn [metadata].
  destruct act as [[d|] [tf|] [te|] ap arts]; repeat split.
Qed.

Lemma row_unit_of_optional (f : str) (names : list str) (i : nat) (row : Row) :
  optional_metadata row (row_unit_of f names (i, row)).
Proof.
  unfold optional_metadata, row_unit_of, row_metadata. cbn [metadata fst snd].
  destruct (Dict.lookup (lit "Date") (fields row)) as [d|];
    destruct (Dict.lookup (lit "Subject") (fields row)) as [t|];
    split; reflexivity.
Qed.

(** Claim C8.  The claim fails on a row that is shorter than the header,
    whose missing fields [csv.DictReader] fills with [None].  For the line
    [Al] under the header [Name,Date,Text_Content] the anonymiser is called
    on [None] with a name to look for, and extraction raises [TypeError]:
    no unit is returned for any row of the input, and the entry point
    writes no file.  For the line [7] under the header [ID,Date] extraction
    returns, and the metadata of the unit has the entry ["Date"] with
    [None], which the writer puts in the file as [Date: None]. *)
Theorem missing_fields_short_row :
  filter_and_chunk_csv_data [Sample.short] (lit "f.csv") = Raise TypeError
  /\ filter_and_chunk_csv_data [Sample.alice; Sample.short] (lit "f.csv")
     = Raise TypeError
  /\ files_written
       (algorithm_main
          (posix (fun _ => Raise ParseFailure)
                 (fun _ => Ok [Sample.alice; Sample.short]))
          (lit "in/f.csv"))
     = 0
  /\ exists u,
       filter_and_chunk_csv_data [Sample.undated] (lit "f.csv") = Ok [u]
       /\ Dict.lookup (lit "Date") (metadata u) = Some VNone
       /\ Dict.contains (lit "Date") (metadata u) = true
       /\ starts_with (lit "Source: f.csv" ++ newline
                         ++ lit "Type: CSV_Row" ++ newline
                         ++ lit "Row_ID: 1" ++ newline
                         ++ lit "Date: None" ++ newline)
                      (write_unit u) = true.
Proof.
  split; [reflexivity|]. split; [reflexivity|]. split; [reflexivity|].
  eexists. split; [reflexivity|]. repeat split.
Qed.

Example missing_fields_sample :
  exists u1 u2,
    filter_and_chunk_json_data Sample.document (lit "f.json") = Ok [u1; u2]
    /\ Dict.lookup (lit "Date") (metadata u2) = Some (VStr NA)
    /\ Dict.lookup (lit "Title (FR)") (metadata u2) = Some (VStr NA)
    /\ Dict.lookup (lit "Title (EN)") (metadata u2) = Some (VStr (lit "Order")).
Proof. do 2 eexists. repeat split. Qed.

(** ** The writer and the entry point *)

(** Claim C7, as stated, fails in its last part: the writer has no [return]
    and the call gives [None], not the number of files. *)
Lemma writer_returns_none :
  snd (write_chunks_to_files Sample.os [Sample.unit] (lit "f_json")) = RNone
  /\ snd (write_chunks_to_files Sample.os [Sample.unit] (lit "f_json")) <> RInt 1.
Proof. split; [reflexivity|discriminate]. Qed.

(** Claim C7, amended.  The writer makes the directory, then for each unit
    in order writes one file: every metadata entry as [key: value] on a line
    of its own in insertion order, a blank line, then for each chunk in
    order a header line with the chunk id, a [Content (FR)] line iff that
    content is present and not empty, a [Content (EN)] line likewise, and a
    blank line.  A unit without chunks gives the metadata lines and the
    blank line.  As many files are written as there are units, and the call
    returns nothing. *)
Theorem writer_layout (os : Platform) (chunks_data : list Unit)
  (output_sub_dir : str) :
  write_chunks_to_files os chunks_data output_sub_dir
  = (Makedirs (path_join os OUTPUT_DIR output_sub_dir)
       :: flat_map (unit_events os output_sub_dir) (enumerate chunks_data),
     RNone)
  /\ files_written (fst (write_chunks_to_files os chunks_data output_sub_dir))
     = length chunks_data
  /\ (forall md : Dict.t,
        spec_file_body {| metadata := md; chunks := [] |}
        = concat (map metadata_line md) ++ newline).
Proof.
  split; [apply write_chunks_to_files_ok|]. split.
  - rewrite write_chunks_to_files_ok. cbn [fst]. unfold files_written.
    cbn [filter is_write].
    change (length (filter is_write (flat_map (unit_events os output_sub_dir)
                                       (enumerate chunks_data))))
      with (files_written (flat_map (unit_events os output_sub_dir)
                             (enumerate chunks_data))).
    now rewrite files_written_units, length_enumerate.
  - intros md. unfold spec_file_body. cbn [metadata chunks map concat].
    now rewrite app_nil_r.
Qed.

Example writer_sample :
  fst (write_chunks_to_files Sample.os [Sample.unit] (lit "f_json"))
  = [ Makedirs (lit "filtered_and_chunked_data/f_json");
      FileWrite (lit "filtered_and_chunked_data/f_json/f_json_unit_001.txt")
        (lit "Source: f.json" ++ newline ++ lit "Type: Decree" ++ newline
           ++ newline
           ++ lit "Chunk [001]:" ++ newline
           ++ lit "Content (EN): text" ++ newline ++ newline);
      Stdout (MsgWritten (lit "filtered_and_chunked_data/f_json/f_json_unit_001.txt")) ].
Proof. reflexivity. Qed.

(** Claim C9.  When extraction gives no unit the entry point does not call
    the writer: it prints that no unit was produced and nothing else
    follows, no directory is made and no file written. *)
Theorem no_units_no_files (os : Platform) (input_file_path : str) :
  extract_units os input_file_path = Some (Ok []) ->
  algorithm_main os input_file_path
  = [Stdout (MsgProcessing input_file_path); Stdout (MsgNoUnits input_file_path)]
  /\ existsb touches_files (algorithm_main os input_file_path) = false.
Proof.
  intros H. unfold algorithm_main. rewrite H. split; reflexivity.
Qed.

Lemma no_units_no_files_witness :
  extract_units Sample.os (lit "in/empty.json") = Some (Ok [])
  /\ algorithm_main Sample.os (lit "in/empty.json")
     = [Stdout (MsgProcessing (lit "in/empty.json"));
        Stdout (MsgNoUnits (lit "in/empty.json"))]
  /\ existsb touches_files (algorithm_main Sample.os (lit "in/empty.json")) = false.
Proof.
  split; [reflexivity|].
  apply (no_units_no_files Sample.os (lit "in/empty.json")). reflexivity.
Defined.

(** * Further properties *)

(** ** The anonymiser on texts it has nothing to replace in *)




Lemma no_word_no_match (name : str) :
  forall s p,
    forallb (fun c => negb (is_word c)) s = true -> word_opt p = false ->
    search_from name p s = false.
Proof.
  induction s as [|c s IH]; intros p Hs Hp.
  - simpl. unfold match_here, boundary. rewrite Hp. reflexivity.
  - simpl in Hs. apply andb_true_iff in Hs. destruct Hs as [Hc Hs].
    apply negb_true_iff in Hc.
    rewrite search_from_cons. apply orb_false_iff. split.
    + unfold match_here, boundary. simpl. rewrite Hp, Hc. reflexivity.
    + apply IH; assumption.
Qed.

(** X2.  A text without a word character (no letter, digit or underscore)
    is returned as it is, whatever the names, the empty name included. *)
Theorem anonymize_text_no_word (text : str) (names : list str) :
  forallb (fun c => negb (is_word c)) text = true ->
  anonymize_text text names = text.
Proof.
  intros H. apply anonymize_no_match. intros name _.
  now apply no_word_no_match.
Qed.

Lemma anonymize_text_no_word_witness :
  forallb (fun c => negb (is_word c)) (lit "... [] -- !") = true
  /\ anonymize_text (lit "... [] -- !") [lit ""; lit "."; lit "[]"]
     = lit "... [] -- !".
Proof.
  split; [reflexivity|].
  apply (anonymize_text_no_word (lit "... [] -- !") [lit ""; lit "."; lit "[]"]).
  reflexivity.
Defined.

Lemma word_run_inner (name : str) :
  name <> [] ->
  forall s c,
    Forall (fun x => is_word x = true) s -> is_word c = true ->
    search_from name (Some c) s = false.
Proof.
  intros Hne. induction s as [|d s IH]; intros c Hs Hc.
  - now apply search_from_nil.
  - rewrite search_from_cons. apply orb_false_iff. split.
    + unfold match_here, boundary. simpl. rewrite Hc.
      rewrite (Forall_inv Hs). reflexivity.
    + apply IH; [now apply Forall_inv_tail in Hs|now apply Forall_inv in Hs].
Qed.

Lemma word_run_no_match (name text : str) :
  name <> [] -> ci_str_eqb name text = false ->
  Forall (fun x => is_word x = true) text ->
  occurs name text = false.
Proof.
  intros Hne Hci Hw. unfold occurs.
  destruct text as [|c text]; [now apply search_from_nil|].
  rewrite search_from_cons. apply orb_false_iff. split.
  - destruct (match_here name None (c :: text)) eqn:Hm; [exfalso|reflexivity].
    apply match_here_true in Hm. destruct Hm as (_ & q & r & Hp & Hq).
    destruct (prefix_ci_split _ _ _ _ _ Hp) as (x & Ex & Hl & -> & HF).
    destruct r as [|d r].
    + rewrite app_nil_r in Ex. subst x.
      apply ci_str_eqb_Forall2 in HF. congruence.
    + destruct x as [|e x].
      * apply Forall2_length in HF. apply length_zero_iff_nil in HF. congruence.
      * destruct (last_opt_cons None e x) as (z & Hz & Hin).
        rewrite Hz in Hq. unfold boundary in Hq. simpl in Hq.
        rewrite Ex in Hw. apply Forall_app in Hw. destruct Hw as [Hx Hr].
        rewrite Forall_forall in Hx. rewrite (Hx _ Hin) in Hq.
        rewrite (Forall_inv Hr) in Hq. discriminate.
  - apply word_run_inner; [exact Hne| |].
    + now apply Forall_inv_tail in Hw.
    + now apply Forall_inv in Hw.
Qed.

(** X3.  A name is never replaced inside a longer word: a text that is one
    run of word characters is returned as it is unless a name of the list
    is the whole text, in some case. *)
Theorem anonymize_text_inside_word (text : str) (names : list str) :
  forallb is_word text = true ->
  forallb (fun name => truthy name && negb (ci_str_eqb name text))%bool names
  = true ->
  anonymize_text text names = text.
Proof.
  intros Hw Hn. apply anonymize_no_match. intros name Hin.
  rewrite forallb_forall in Hn. specialize (Hn name Hin).
  apply andb_true_iff in Hn. destruct Hn as [Hne Hci].
  apply negb_true_iff in Hci.
  apply word_run_no_match; [destruct name; [discriminate|congruence]|exact Hci|].
  apply Forall_forall. rewrite forallb_forall in Hw. exact Hw.
Qed.

Lemma anonymize_text_inside_word_witness :
  forallb is_word (lit "Annual") = true
  /\ forallb (fun name => truthy name && negb (ci_str_eqb name (lit "Annual")))%bool
       [lit "Ann"; lit "ual"; lit "nnua"] = true
  /\ anonymize_text (lit "Annual") [lit "Ann"; lit "ual"; lit "nnua"]
     = lit "Annual".
Proof.
  split; [reflexivity|]. split; [reflexivity|].
  apply (anonymize_text_inside_word (lit "Annual") [lit "Ann"; lit "ual"; lit "nnua"]);
    reflexivity.
Defined.

(** ** What a pass replaces *)

Lemma word_opt_last_ci (a b : str) :
  Forall2 (fun x y => ci_eqb x y = true) a b ->
  forall p q, word_opt p = word_opt q ->
  word_opt (last_opt p a) = word_opt (last_opt q b).
Proof.
  induction 1 as [|x y a b Hxy HF IH]; intros p q Hpq; [exact Hpq|].
  simpl. apply IH. simpl. now apply ci_eqb_word.
Qed.

Lemma word_opt_head_ci (a b : str) :
  Forall2 (fun x y => ci_eqb x y = true) a b ->
  word_opt (head_opt a) = word_opt (head_opt b).
Proof. destruct 1; [reflexivity|]. simpl. now apply ci_eqb_word. Qed.

(** X4.  A text that is the name, in any case, becomes the placeholder when
    the name begins and ends with a word character. *)
Theorem anonymize_text_whole_name (name text : str) :
  ci_str_eqb name text = true ->
  word_opt (head_opt name) = true ->
  word_opt (last_opt None name) = true ->
  anonymize_text text [name] = ANONYMIZATION_PLACEHOLDER.
Proof.
  intros Hci Hh Hl. apply ci_str_eqb_true in Hci.
  assert (Hne : name <> []) by (intros ->; discriminate).
  pose proof (prefix_ci_app name text Hci None []) as Hp.
  rewrite app_nil_r in Hp.
  assert (Hm : match_here name None text = true).
  { apply match_here_true. split.
    - unfold boundary. rewrite <- (word_opt_head_ci _ _ Hci), Hh. reflexivity.
    - exists (last_opt None text), []. split; [exact Hp|].
      unfold boundary.
      rewrite <- (word_opt_last_ci _ _ Hci None None eq_refl), Hl. reflexivity. }
  simpl. unfold re_sub. rewrite (sub_scan_hit _ _ _ _ _ Hne Hm Hp).
  rewrite sub_scan_miss_nil by now apply match_here_nil.
  apply app_nil_r.
Qed.

Lemma anonymize_text_whole_name_witness :
  ci_str_eqb (lit "Jane Doe") (lit "JANE doe") = true
  /\ word_opt (head_opt (lit "Jane Doe")) = true
  /\ word_opt (last_opt None (lit "Jane Doe")) = true
  /\ anonymize_text (lit "JANE doe") [lit "Jane Doe"] = ANONYMIZATION_PLACEHOLDER.
Proof.
  repeat (split; [reflexivity|]).
  apply (anonymize_text_whole_name (lit "Jane Doe") (lit "JANE doe")); reflexivity.
Defined.

Lemma prefix_ci_short (name : str) :
  forall p s, length s < length name -> prefix_ci name p s = None.
Proof.
  induction name as [|a name IH]; intros p s H; [simpl in H; lia|].
  destruct s as [|c s]; [reflexivity|]. simpl.
  destruct (ci_eqb a c); [|reflexivity]. apply IH. simpl in H. lia.
Qed.

Lemma short_no_match (name : str) :
  forall s p, length s < length name -> search_from name p s = false.
Proof.
  induction s as [|c s IH]; intros p H.
  - simpl. unfold match_here. rewrite prefix_ci_short by assumption.
    now rewrite andb_false_r.
  - rewrite search_from_cons. apply orb_false_iff. split.
    + unfold match_here. rewrite prefix_ci_short by assumption.
      apply andb_false_r.
    + apply IH. simpl in H. lia.
Qed.

(** X5.  A name that begins or ends with a character that is not a word
    character (a final dot, say) is not replaced where it stands alone: a
    text that is the name, in any case, is returned as it is. *)
Theorem anonymize_text_edge_not_word (name text : str) :
  ci_str_eqb name text = true ->
  (word_opt (head_opt name) && word_opt (last_opt None name))%bool = false ->
  anonymize_text text [name] = text.
Proof.
  intros Hci He. apply ci_str_eqb_true in Hci.
  apply anonymize_no_match. intros n [<-|[]]. unfold occurs.
  pose proof (Forall2_length Hci) as Hlen.
  destruct text as [|c text].
  - simpl. unfold match_here, boundary. reflexivity.
  - rewrite search_from_cons. apply orb_false_iff. split.
    + destruct (match_here name None (c :: text)) eqn:Hm; [exfalso|reflexivity].
      apply match_here_true in Hm. destruct Hm as (Hb & q & r & Hp & Hq).
      pose proof (prefix_ci_app name (c :: text) Hci None []) as Hp'.
      rewrite app_nil_r in Hp'. rewrite Hp in Hp'. injection Hp' as -> ->.
      pose proof (word_opt_head_ci _ _ Hci) as Hhead.
      pose proof (word_opt_last_ci _ _ Hci None None eq_refl) as Hlast.
      unfold boundary in Hb, Hq. simpl in Hb, Hq, Hhead, Hlast.
      rewrite xorb_false_r in Hq.
      rewrite Hhead, Hlast, Hb, Hq in He. discriminate.
    + apply short_no_match. simpl in Hlen. lia.
Qed.

Lemma anonymize_text_edge_not_word_witness :
  ci_str_eqb (lit "John Roe Jr.") (lit "John Roe Jr.") = true
  /\ (word_opt (head_opt (lit "John Roe Jr."))
      && word_opt (last_opt None (lit "John Roe Jr.")))%bool = false
  /\ anonymize_text (lit "John Roe Jr.") [lit "John Roe Jr."] = lit "John Roe Jr.".
Proof.
  repeat (split; [reflexivity|]).
  apply (anonymize_text_edge_not_word (lit "John Roe Jr.") (lit "John Roe Jr."));
    reflexivity.
Defined.

Lemma prefix_ci_case (n n' : str) :
  Forall2 (fun x y => ci_eqb x y = true) n n' ->
  forall p s, prefix_ci n p s = prefix_ci n' p s.
Proof.
  induction 1 as [|a a' n n' Ha HF IH]; intros p s; [reflexivity|].
  destruct s as [|c s]; [reflexivity|]. simpl.
  assert (E : ci_eqb a c = ci_eqb a' c).
  { destruct (ci_eqb a c) eqn:E1; destruct (ci_eqb a' c) eqn:E2; auto.
    - rewrite ci_eqb_sym in Ha.
      now rewrite (ci_eqb_trans _ _ _ Ha E1) in E2.
    - now rewrite (ci_eqb_trans _ _ _ Ha E2) in E1. }
  rewrite E. destruct (ci_eqb a' c); [apply IH|reflexivity].
Qed.

Lemma match_here_case (n n' : str) :
  Forall2 (fun x y => ci_eqb x y = true) n n' ->
  forall p s, match_here n p s = match_here n' p s.
Proof. intros H p s. unfold match_here. now rewrite (prefix_ci_case _ _ H). Qed.

Lemma sub_scan_case (n n' : str) :
  Forall2 (fun x y => ci_eqb x y = true) n n' ->
  forall s p skip, sub_scan n p skip s = sub_scan n' p skip s.
Proof.
  intros H. induction s as [|c s IH]; intros p skip.
  - destruct skip; simpl; [|reflexivity].
    now rewrite (match_here_case _ _ H).
  - destruct skip as [|k]; [|apply IH].
    simpl. rewrite (match_here_case _ _ H).
    destruct (match_here n' p (c :: s)); [|now rewrite IH].
    pose proof (Forall2_length H) as Hlen.
    destruct n as [|a n]; destruct n' as [|a' n']; try discriminate.
    + reflexivity.
    + injection Hlen as Hlen. rewrite Hlen, IH. reflexivity.
Qed.

(** X6.  The case of the names does not matter: two lists of names that
    differ in case only give the same result. *)
Theorem anonymize_text_names_case (text : str) (names names' : list str) :
  Forall2 (fun n n' => ci_str_eqb n n' = true) names names' ->
  anonymize_text text names = anonymize_text text names'.
Proof.
  intros H. revert text. induction H as [|n n' names names' Hn HF IH]; intros text.
  - reflexivity.
  - simpl. unfold re_sub. apply ci_str_eqb_true in Hn.
    rewrite (sub_scan_case _ _ Hn). apply IH.
Qed.

Lemma anonymize_text_names_case_witness :
  Forall2 (fun n n' => ci_str_eqb n n' = true)
    [lit "jane doe"; lit "BOB"] [lit "Jane Doe"; lit "Bob"]
  /\ anonymize_text (lit "Jane Doe met bob.") [lit "jane doe"; lit "BOB"]
     = anonymize_text (lit "Jane Doe met bob.") [lit "Jane Doe"; lit "Bob"].
Proof.
  split; [repeat constructor|].
  apply (anonymize_text_names_case (lit "Jane Doe met bob.")
           [lit "jane doe"; lit "BOB"] [lit "Jane Doe"; lit "Bob"]).
  repeat constructor.
Defined.

Lemma sub_scan_replaced (name : str) :
  name <> [] ->
  forall k s, length s <= k ->
  forall p, replaced [name] p s (sub_scan name p 0 s).
Proof.
  intros Hne. induction k as [|k IH]; intros s Hlen p.
  - destruct s; [|simpl in Hlen; lia].
    rewrite sub_scan_miss_nil by now apply match_here_nil. constructor.
  - destruct (match_here name p s) eqn:Hm.
    + destruct (sub_scan_hit_cases _ _ _ Hm)
        as [(E & _)|[(E & _)|(_ & q & r & Hp & Hq & ->)]]; try congruence.
      eapply replaced_hit; eauto; [now left|].
      apply IH. pose proof (prefix_ci_shorter _ _ _ _ _ Hne Hp). lia.
    + destruct s as [|c s].
      * rewrite sub_scan_miss_nil by assumption. constructor.
      * rewrite sub_scan_keep by assumption. constructor.
        apply IH. simpl in Hlen. lia.
Qed.

(** X7.  One pass, for a name that begins and ends with a word character:
    every whole-word occurrence of the name, in any case, is replaced by
    the placeholder, from left to right, and every other character is
    kept.  The result is what the replacement of whole words gives, and it
    is the text with whole-word occurrences replaced. *)
Theorem anonymize_text_one_name (text name : str) :
  word_edged name = true ->
  anonymize_text text [name] = replace_whole_words name text
  /\ rewritten [name] None text (anonymize_text text [name]).
Proof.
  intros He. split.
  - now apply re_sub_replace_whole_words.
  - apply replaced_rewritten.
    + intros m [<-|[]]. exact He.
    + apply (sub_scan_replaced name (word_edged_nonempty _ He) (length text)).
      apply le_n.
Qed.

Lemma anonymize_text_one_name_witness :
  word_edged (lit "Ann") = true
  /\ anonymize_text (lit "Annual report by ann, ANN.") [lit "Ann"]
     = replace_whole_words (lit "Ann") (lit "Annual report by ann, ANN.")
  /\ rewritten [lit "Ann"] None (lit "Annual report by ann, ANN.")
       (anonymize_text (lit "Annual report by ann, ANN.") [lit "Ann"]).
Proof.
  split; [reflexivity|].
  apply (anonymize_text_one_name (lit "Annual report by ann, ANN.") (lit "Ann")).
  reflexivity.
Defined.

Example replace_whole_words_sample :
  replace_whole_words (lit "Ann") (lit "Annual report by ann, ANN.")
  = lit "Annual report by [ANONYMIZED_PERSON], [ANONYMIZED_PERSON].".
Proof. reflexivity. Qed.

Lemma anonymize_text_app (text : str) (l1 l2 : list str) :
  anonymize_text text (l1 ++ l2) = anonymize_text (anonymize_text text l1) l2.
Proof. unfold anonymize_text. apply fold_left_app. Qed.

(** X8.  A plain name that stands a second time in the list changes
    nothing: with or without the repetition the result is the same. *)
Theorem anonymize_text_repeated_name (text name : str) (before after : list str) :
  plain_name name = true -> In name before ->
  anonymize_text text (before ++ name :: after)
  = anonymize_text text (before ++ after).
Proof.
  intros Hp Hin. rewrite !anonymize_text_app.
  change (anonymize_text (anonymize_text text before) (name :: after))
    with (anonymize_text (re_sub name (anonymize_text text before)) after).
  f_equal. apply sub_scan_no_match. now apply anonymize_clears.
Qed.

Lemma anonymize_text_repeated_name_witness :
  plain_name (lit "Bob") = true
  /\ In (lit "Bob") [lit "Bob"; lit "Alice"]
  /\ anonymize_text (lit "bob and alice") ([lit "Bob"; lit "Alice"] ++ lit "Bob" :: [lit "and"])
     = anonymize_text (lit "bob and alice") ([lit "Bob"; lit "Alice"] ++ [lit "and"]).
Proof.
  split; [reflexivity|]. split; [now left|].
  apply (anonymize_text_repeated_name (lit "bob and alice") (lit "Bob")
           [lit "Bob"; lit "Alice"] [lit "and"]); [reflexivity|now left].
Defined.

(** ** The nested extractor *)

Lemma act_names_inv (act : Act) (name : str) :
  In name (act_names act) ->
  appointee_name act = Some name
  \/ (replacement_name act = Some name /\ name <> []).
Proof.
  unfold act_names. intros H. apply in_app_or in H. destruct H as [H|H].
  - left. destruct (appointee_name act); [|destruct H].
    destruct H as [->|[]]. reflexivity.
  - right. destruct (replacement_name act) as [r|]; [|destruct H].
    destruct r as [|c r]; [destruct H|].
    destruct H as [<-|[]]. split; [reflexivity|discriminate].
Qed.

(** X9.  The collected names are exactly the appointee names that are
    present (the empty string included) and the replacement names that are
    present and not empty, of the acts of both collections: nothing else is
    ever treated as a name. *)
Theorem collect_names_exact (data : Document) :
  exists names,
    collect_names data = Ok names
    /\ forall name,
         In name names <->
         exists act,
           In act (all_acts data)
           /\ (appointee_name act = Some name
               \/ (replacement_name act = Some name /\ name <> [])).
Proof.
  exists (nested_names data). split; [apply collect_names_ok|].
  intros name. unfold nested_names. rewrite in_flat_map. split.
  - intros (act & Hin & H). exists act. split; [exact Hin|].
    now apply act_names_inv.
  - intros (act & Hin & [H|[H Hne]]); exists act; split; auto.
    + now apply act_names_appointee.
    + now apply act_names_replacement.
Qed.

Lemma collect_names_exact_witness :
  exists names,
    collect_names Sample.document = Ok names
    /\ forall name,
         In name names <->
         exists act,
           In act (all_acts Sample.document)
           /\ (appointee_name act = Some name
               \/ (replacement_name act = Some name /\ name <> [])).
Proof. exact (collect_names_exact Sample.document). Defined.

(** X10.  Every unit of the nested extractor has the same six metadata
    keys in the same order, its ["Source"] is the file name given by the
    caller, and its ["Appointee Name"] is the placeholder or ["N/A"],
    whatever the input. *)
Theorem nested_metadata_shape (data : Document) (original_file_name : str) :
  exists units,
    filter_and_chunk_json_data data original_file_name = Ok units
    /\ Forall
         (fun u =>
            map fst (metadata u) = nested_keys
            /\ Dict.lookup (lit "Source") (metadata u)
               = Some (VStr original_file_name)
            /\ (Dict.lookup (lit "Appointee Name") (metadata u)
                = Some (VStr ANONYMIZATION_PLACEHOLDER)
                \/ Dict.lookup (lit "Appointee Name") (metadata u)
                   = Some (VStr NA)))
         units.
Proof.
  eexists. split; [apply filter_and_chunk_json_data_ok|].
  apply Forall_app. split; apply Forall_forall; intros u Hu;
    apply in_map_iff in Hu; destruct Hu as (act & <- & _);
    (split; [reflexivity|]); (split; [reflexivity|]);
    rewrite unit_of_appointee; unfold appointee_label;
    destruct (appointee_name act) as [name|]; auto;
    destruct (str_eqb name NA); auto.
Qed.




(** ** The flat extractor *)

Lemma row_names_inv (row : Row) (name : str) :
  In name (row_names row) <->
  Dict.lookup (lit "Name") (fields row) = Some (VStr name) /\ name <> [].
Proof.
  unfold row_names. destruct (Dict.lookup (lit "Name") (fields row)) as [[|n]|].
  - split; [intros []|intros [H _]; discriminate].
  - destruct n as [|c n]; simpl; split.
    + intros [].
    + intros [H Hne]. injection H as <-. congruence.
    + intros [<-|[]]. split; [reflexivity|discriminate].
    + intros [H _]. left. congruence.
  - split; [intros []|intros [H _]; discriminate].
Qed.

(** X12.  The names collected from the rows are exactly the values of the
    ["Name"] column that are not empty: an empty name never reaches the
    anonymiser from a CSV input. *)
Theorem csv_names_exact (data : list Row) :
  exists names,
    for_each data collect_names_row [] = Ok names
    /\ (forall name,
          In name names <->
          exists row,
            In row data
            /\ Dict.lookup (lit "Name") (fields row) = Some (VStr name)
            /\ name <> [])
    /\ ~ In [] names.
Proof.
  exists (csv_names data). split.
  - now rewrite (for_each_append row_names collect_names_row collect_names_row_ok).
  - assert (H : forall name,
               In name (csv_names data) <->
               exists row,
                 In row data
                 /\ Dict.lookup (lit "Name") (fields row) = Some (VStr name)
                 /\ name <> []).
    { intros name. unfold csv_names. rewrite in_flat_map.
      split; intros (row & Hin & H); exists row; (split; [exact Hin|]);
        now apply row_names_inv. }
    split; [exact H|]. intros Hin. apply H in Hin.
    destruct Hin as (row & _ & _ & Hne). now apply Hne.
Qed.

Lemma csv_names_exact_witness :
  exists names,
    for_each Sample.rows collect_names_row [] = Ok names
    /\ (forall name,
          In name names <->
          exists row,
            In row Sample.rows
            /\ Dict.lookup (lit "Name") (fields row) = Some (VStr name)
            /\ name <> [])
    /\ ~ In [] names.
Proof. exact (csv_names_exact Sample.rows). Defined.

Lemma metadata_row_id (f : str) (names : list str) (ir : nat * Row) :
  Dict.lookup (lit "Source") (metadata (row_unit_of f names ir)) = Some (VStr f)
  /\ Dict.lookup (lit "Type") (metadata (row_unit_of f names ir))
     = Some (VStr (lit "CSV_Row"))
  /\ Dict.lookup (lit "Row_ID") (metadata (row_unit_of f names ir))
     = Some (VStr (py_str (fst ir + 1))).
Proof. repeat split. Qed.

(** X13.  The units of the flat extractor, which are returned when line
    193 returns for every row, carry the file name as ["Source"],
    ["CSV_Row"] as ["Type"], and as ["Row_ID"] the position of their row
    counted from one, written in decimal: read back as numbers the ids are
    1, 2, ..., n. *)
Theorem csv_row_ids (data : list Row) (original_file_name : str) :
  csv_returns data = true ->
  exists units,
    filter_and_chunk_csv_data data original_file_name = Ok units
    /\ Forall
         (fun u =>
            Dict.lookup (lit "Source") (metadata u)
            = Some (VStr original_file_name)
            /\ Dict.lookup (lit "Type") (metadata u)
               = Some (VStr (lit "CSV_Row")))
         units
    /\ map (fun u => match Dict.lookup (lit "Row_ID") (metadata u) with
                     | Some (VStr id) => int_of_str id
                     | _ => None
                     end) units
       = map Some (seq 1 (length data)).
Proof.
  intros Hr. eexists. split; [now apply filter_and_chunk_csv_data_ok|]. split.
  - apply Forall_forall. intros u Hu. apply in_map_iff in Hu.
    destruct Hu as (ir & <- & _). split; reflexivity.
  - rewrite map_map. unfold enumerate.
    rewrite <- seq_shift, map_map.
    rewrite <- (map_fst_combine_seq data 0) at 2. rewrite map_map.
    apply map_ext. intros [i row].
    destruct (metadata_row_id original_file_name (csv_names data) (i, row))
      as (_ & _ & E).
    rewrite E. cbn [fst]. rewrite int_of_str_py_str. f_equal. lia.
Qed.

Lemma csv_row_ids_witness :
  csv_returns Sample.rows = true
  /\ exists units,
       filter_and_chunk_csv_data Sample.rows (lit "rows.csv") = Ok units
       /\ Forall
            (fun u =>
               Dict.lookup (lit "Source") (metadata u)
               = Some (VStr (lit "rows.csv"))
               /\ Dict.lookup (lit "Type") (metadata u)
                  = Some (VStr (lit "CSV_Row")))
            units
       /\ map (fun u => match Dict.lookup (lit "Row_ID") (metadata u) with
                        | Some (VStr id) => int_of_str id
                        | _ => None
                        end) units
          = map Some (seq 1 (length Sample.rows)).
Proof.
  split; [reflexivity|].
  apply (csv_row_ids Sample.rows (lit "rows.csv")). reflexivity.
Defined.

(** The value of one column overwritten, as a map over the columns. *)
Lemma set_as_map (key : str) (v : value) (d : Dict.t) :
  NoDup (map fst d) ->
  Dict.contains key d = true ->
  Dict.set key v d
  = map (fun kv => if str_eqb (fst kv) key then (fst kv, v) else kv) d.
Proof.
  unfold Dict.contains.
  induction d as [|[k v'] d IH]; intros Hnd Hc; [discriminate|].
  simpl in *. destruct (str_eqb k key) eqn:E.
  - f_equal. apply str_eqb_eq in E. subst k.
    inversion Hnd as [|? ? Hnotin _]; subst.
    clear IH Hc Hnd. induction d as [|[k' v''] d IH]; [reflexivity|].
    simpl in *. destruct (str_eqb k' key) eqn:E'.
    + apply str_eqb_eq in E'. subst k'. exfalso. apply Hnotin. now left.
    + f_equal. apply IH. intros H. apply Hnotin. now right.
  - f_equal. apply IH; [now inversion Hnd|exact Hc].
Qed.

Lemma map_no_key (key : str) (v : value) (d : Dict.t) :
  Dict.contains key d = false ->
  map (fun kv => if str_eqb (fst kv) key then (fst kv, v) else kv) d = d.
Proof.
  unfold Dict.contains. induction d as [|[k v'] d IH]; intros Hc; [reflexivity|].
  simpl in *. destruct (str_eqb k key); [discriminate|]. f_equal. now apply IH.
Qed.

(** X14.  A row without a ["Text_Content"] column gives one chunk whose
    content is the label followed by the JSON text of the row, every column
    in the order of the header with its value as it is ([null] for a field
    that is [None]), except the value of ["Name"], which is the
    placeholder; the fields beyond the header follow as a list under
    ["null"].  The units are returned when line 193 returns for every
    row. *)
Theorem csv_fallback_content (data : list Row) (original_file_name : str) :
  Forall (fun row => NoDup (map fst (fields row))) data ->
  csv_returns data = true ->
  exists units,
    filter_and_chunk_csv_data data original_file_name = Ok units
    /\ Forall2
         (fun row u =>
            Dict.lookup (lit "Text_Content") (fields row) = None ->
            chunks u
            = [ {| Chunk_ID := lit "001";
                   Content_FR_out := None;
                   Content_EN_out :=
                     Some (VStr
                             (lit "CSV Row data: "
                                ++ Json.dumps
                                     (map (fun kv =>
                                             if str_eqb (fst kv) (lit "Name")
                                             then (fst kv,
                                                   VStr ANONYMIZATION_PLACEHOLDER)
                                             else kv) (fields row))
                                     (rest row))) |} ])
         data units.
Proof.
  intros Hnd Hr. eexists. split; [now apply filter_and_chunk_csv_data_ok|].
  apply Forall2_enumerate_in. intros i row Hin Ht.
  rewrite Forall_forall in Hnd. specialize (Hnd row Hin).
  unfold row_unit_of, row_content. cbn [chunks snd]. rewrite Ht.
  do 6 f_equal. unfold masked_fields.
  destruct (Dict.contains (lit "Name") (fields row)) eqn:Hc.
  - now apply set_as_map.
  - symmetry. now apply map_no_key.
Qed.

Lemma csv_fallback_content_witness :
  Forall (fun row => NoDup (map fst (fields row))) Sample.rows
  /\ csv_returns Sample.rows = true
  /\ exists units,
       filter_and_chunk_csv_data Sample.rows (lit "f.csv") = Ok units
       /\ Forall2
            (fun row u =>
               Dict.lookup (lit "Text_Content") (fields row) = None ->
               chunks u
               = [ {| Chunk_ID := lit "001";
                      Content_FR_out := None;
                      Content_EN_out :=
                        Some (VStr
                                (lit "CSV Row data: "
                                   ++ Json.dumps
                                        (map (fun kv =>
                                                if str_eqb (fst kv) (lit "Name")
                                                then (fst kv,
                                                      VStr ANONYMIZATION_PLACEHOLDER)
                                                else kv) (fields row))
                                        (rest row))) |} ])
            Sample.rows units.
Proof.
  assert (H : Forall (fun row => NoDup (map fst (fields row))) Sample.rows).
  { repeat constructor; simpl; intuition discriminate. }
  split; [exact H|]. split; [reflexivity|].
  exact (csv_fallback_content Sample.rows (lit "f.csv") H eq_refl).
Defined.

Example csv_fallback_sample :
  exists u1 u2,
    filter_and_chunk_csv_data Sample.rows (lit "f.csv") = Ok [u1; u2]
    /\ map Content_EN_out (chunks u2)
       = [ Some (VStr
                   (lit "CSV Row data: {" ++ Json.encode_string (lit "ID") ++ lit ": "
                      ++ Json.encode_string (lit "2") ++ lit ", "
                      ++ Json.encode_string (lit "Name") ++ lit ": "
                      ++ Json.encode_string (lit "[ANONYMIZED_PERSON]") ++ lit ", "
                      ++ Json.encode_string (lit "Role") ++ lit ": "
                      ++ Json.encode_string (lit "builder") ++ lit "}")) ].
Proof. do 2 eexists. split; reflexivity. Qed.

(** A row longer than its header, and a row shorter than it. *)
Example csv_fallback_long_row :
  exists u1 u2,
    filter_and_chunk_csv_data [Sample.long; Sample.undated] (lit "f.csv")
    = Ok [u1; u2]
    /\ map Content_EN_out (chunks u1)
       = [ Some (VStr
                   (lit "CSV Row data: {" ++ Json.encode_string (lit "Name") ++ lit ": "
                      ++ Json.encode_string (lit "[ANONYMIZED_PERSON]") ++ lit ", "
                      ++ Json.encode_string (lit "Date") ++ lit ": "
                      ++ Json.encode_string (lit "2020") ++ lit ", "
                      ++ Json.encode_string (lit "null") ++ lit ": ["
                      ++ Json.encode_string (lit "x") ++ lit ", "
                      ++ Json.encode_string (lit "y") ++ lit "]}")) ]
    /\ map Content_EN_out (chunks u2)
       = [ Some (VStr
                   (lit "CSV Row data: {" ++ Json.encode_string (lit "ID") ++ lit ": "
                      ++ Json.encode_string (lit "7") ++ lit ", "
                      ++ Json.encode_string (lit "Date") ++ lit ": null}")) ].
Proof. do 2 eexists. split; [reflexivity|]. split; reflexivity. Qed.

(** ** The writer *)

Lemma written_paths_units (os : Platform) (sub : str) (l : list (nat * Unit)) :
  written_paths (flat_map (unit_events os sub) l)
  = map (fun iu => unit_filename os sub (fst iu)) l.
Proof.
  unfold written_paths. induction l as [|iu l IH]; simpl; [reflexivity|].
  now rewrite IH.
Qed.

Lemma NoDup_map_injective {A B : Type} (f : A -> B) (l : list A) :
  (forall x y, f x = f y -> x = y) -> NoDup l -> NoDup (map f l).
Proof.
  intros Hf. induction 1 as [|x l Hx Hl IH]; simpl; constructor; [|exact IH].
  intros Hin. apply in_map_iff in Hin. destruct Hin as (y & Hy & Hin).
  apply Hf in Hy. subst y. contradiction.
Qed.

(** X15.  With the path join of POSIX the writer never writes two units of
    a call to the same file: the paths of the files are pairwise different,
    so as many files exist afterwards as there are units. *)
Theorem writer_paths_distinct (jsons : str -> result Document)
  (csvs : str -> result (list Row)) (chunks_data : list Unit)
  (output_sub_dir : str) :
  NoDup (written_paths
           (fst (write_chunks_to_files (posix jsons csvs) chunks_data
                   output_sub_dir)))
  /\ length (written_paths
               (fst (write_chunks_to_files (posix jsons csvs) chunks_data
                       output_sub_dir)))
     = length chunks_data.
Proof.
  rewrite write_chunks_to_files_ok. cbn [fst].
  change (written_paths
            (Makedirs (path_join (posix jsons csvs) OUTPUT_DIR output_sub_dir)
               :: flat_map (unit_events (posix jsons csvs) output_sub_dir)
                    (enumerate chunks_data)))
    with (written_paths
            (flat_map (unit_events (posix jsons csvs) output_sub_dir)
               (enumerate chunks_data))).
  rewrite written_paths_units. split.
  - rewrite <- (map_map fst (unit_filename (posix jsons csvs) output_sub_dir)).
    unfold enumerate. rewrite map_fst_combine_seq.
    apply NoDup_map_injective; [|apply seq_NoDup].
    intros i j. apply posix_filenames_distinct.
  - now rewrite length_map, length_enumerate.
Qed.

(** ** The entry point *)

Lemma writer_log_no_success (os : Platform) (units : list Unit) (sub : str)
  (n : nat) (d : str) :
  ~ In (Stdout (MsgSuccess n d)) (fst (write_chunks_to_files os units sub)).
Proof.
  rewrite write_chunks_to_files_ok. cbn [fst]. intros [H|H]; [discriminate|].
  apply in_flat_map in H. destruct H as (iu & _ & [H|[H|[]]]); discriminate.
Qed.

Lemma files_written_app (a b : list event) :
  files_written (a ++ b) = files_written a + files_written b.
Proof. unfold files_written. now rewrite filter_app, length_app. Qed.

Lemma files_written_writer (os : Platform) (units : list Unit) (sub : str) :
  files_written (fst (write_chunks_to_files os units sub)) = length units.
Proof.
  rewrite write_chunks_to_files_ok. cbn [fst].
  change (files_written (Makedirs (path_join os OUTPUT_DIR sub)
                           :: flat_map (unit_events os sub) (enumerate units)))
    with (files_written (flat_map (unit_events os sub) (enumerate units))).
  now rewrite files_written_units, length_enumerate.
Qed.

Lemma files_written_main (os : Platform) (path : str) (units : list Unit) :
  extract_units os path = Some (Ok units) ->
  files_written (algorithm_main os path) = length units.
Proof.
  intros H. unfold algorithm_main. rewrite H.
  destruct units as [|u units]; [reflexivity|].
  unfold output_units.
  match goal with
  | |- files_written (Stdout _ :: ?l) = _ =>
      change (files_written l = length (u :: units))
  end.
  rewrite files_written_app, files_written_writer.
  unfold files_written. simpl. lia.
Qed.

Lemma writer_log_touches (os : Platform) (units : list Unit) (sub : str) :
  existsb touches_files (fst (write_chunks_to_files os units sub)) = true.
Proof. rewrite write_chunks_to_files_ok. reflexivity. Qed.

(** X16.  The entry point touches the file system exactly when extraction
    returns at least one unit: for a format that is not supported, for an
    input that cannot be read or parsed, for an exception of the extractor
    and for an empty list of units, no directory is made and no file is
    written. *)
Theorem main_touches_files (os : Platform) (input_file_path : str) :
  existsb touches_files (algorithm_main os input_file_path) = true
  <-> exists u units, extract_units os input_file_path = Some (Ok (u :: units)).
Proof.
  unfold algorithm_main.
  destruct (extract_units os input_file_path) as [[[|u units]|e]|] eqn:E.
  - split; [discriminate|]. intros (u & units & H). discriminate.
  - split; [eauto|]. intros _. unfold output_units.
    cbn [existsb touches_files orb]. rewrite existsb_app.
    now rewrite writer_log_touches.
  - split; [discriminate|]. intros (u & units & H). discriminate.
  - split; [discriminate|]. intros (u & units & H). discriminate.
Qed.

Lemma main_touches_files_witness :
  existsb touches_files (algorithm_main Sample.os (lit "in/rows.CSV")) = true
  /\ exists u units,
       extract_units Sample.os (lit "in/rows.CSV") = Some (Ok (u :: units)).
Proof.
  split; [reflexivity|].
  apply (main_touches_files Sample.os (lit "in/rows.CSV")). reflexivity.
Defined.

(** X17.  The number in the message of success is the number of files
    written by the call, and it is never zero. *)
Theorem main_reports_files_written (os : Platform) (input_file_path : str)
  (count : nat) (directory : str) :
  In (Stdout (MsgSuccess count directory)) (algorithm_main os input_file_path) ->
  count = files_written (algorithm_main os input_file_path) /\ 0 < count.
Proof.
  intros Hin.
  destruct (extract_units os input_file_path) as [[units|e]|] eqn:E.
  - rewrite (files_written_main _ _ _ E).
    unfold algorithm_main in Hin. rewrite E in Hin.
    destruct Hin as [Hin|Hin]; [discriminate|].
    destruct units as [|u units].
    + destruct Hin as [Hin|[]]. discriminate.
    + unfold output_units in Hin. apply in_app_or in Hin.
      destruct Hin as [Hin|[Hin|[]]].
      * now apply writer_log_no_success in Hin.
      * injection Hin as <- _. split; [reflexivity|simpl; lia].
  - unfold algorithm_main in Hin. rewrite E in Hin.
    destruct Hin as [Hin|[Hin|[Hin|[]]]]; discriminate.
  - unfold algorithm_main in Hin. rewrite E in Hin.
    destruct Hin as [Hin|[Hin|[]]]; discriminate.
Qed.

Lemma main_reports_files_written_witness :
  In (Stdout (MsgSuccess 2 (lit "filtered_and_chunked_data/rows_CSV")))
     (algorithm_main Sample.os (lit "in/rows.CSV"))
  /\ 2 = files_written (algorithm_main Sample.os (lit "in/rows.CSV"))
  /\ 0 < 2.
Proof.
  assert (H : In (Stdout (MsgSuccess 2 (lit "filtered_and_chunked_data/rows_CSV")))
                (algorithm_main Sample.os (lit "in/rows.CSV"))).
  { vm_compute. do 6 right. left. reflexivity. }
  split; [exact H|].
  exact (main_reports_files_written Sample.os (lit "in/rows.CSV") 2
           (lit "filtered_and_chunked_data/rows_CSV") H).
Defined.




Example main_csv_short_row :
  csv_returns [Sample.alice; Sample.short] = false
  /\ algorithm_main
       (posix (fun _ => Raise ParseFailure)
              (fun _ => Ok [Sample.alice; Sample.short]))
       (lit "in/f.csv")
     = [ Stdout (MsgProcessing (lit "in/f.csv"));
         Stdout (MsgError (lit "in/f.csv") TypeError);
         Stdout (MsgTraceback TypeError) ].
Proof. split; reflexivity. Qed.

(** ** The JSON text of a row *)







(** ** Fields that are missing *)

(** X21.  Nested extraction returns for every document, with one unit per
    act, and the date and the two titles of a unit are those of its act,
    or "N/A" for the ones whose key the act does not have. *)
Theorem nested_missing_fields_sentinel (data : Document)
  (original_file_name : str) :
  exists units,
    filter_and_chunk_json_data data original_file_name = Ok units
    /\ Forall2 sentinel_metadata (all_acts data) units.
Proof.
  eexists. split; [apply filter_and_chunk_json_data_ok|].
  unfold all_acts. apply Forall2_app; apply Forall2_map_r; intros act _;
    apply unit_of_sentinel.
Qed.

(** X22.  When line 193 returns for every row, flat extraction returns one
    unit per row, and the unit has a ["Date"] and a ["Title"] entry exactly
    when the row has the key ["Date"] and the key ["Subject"]; the entry
    holds the field of the row as it is, [None] included. *)
Theorem csv_optional_metadata (data : list Row) (original_file_name : str) :
  csv_returns data = true ->
  exists units,
    filter_and_chunk_csv_data data original_file_name = Ok units
    /\ Forall2 optional_metadata data units.
Proof.
  intros Hr. eexists. split; [now apply filter_and_chunk_csv_data_ok|].
  apply Forall2_enumerate. intros i row. apply row_unit_of_optional.
Qed.

Lemma csv_optional_metadata_witness :
  csv_returns [Sample.alice; Sample.undated] = true
  /\ exists units,
       filter_and_chunk_csv_data [Sample.alice; Sample.undated] (lit "f.csv")
       = Ok units
       /\ Forall2 optional_metadata [Sample.alice; Sample.undated] units.
Proof.
  split; [reflexivity|].
  apply (csv_optional_metadata [Sample.alice; Sample.undated] (lit "f.csv")).
  reflexivity.
Defined.

Lemma csv_returns_false (data : list Row) :
  csv_returns data = false ->
  csv_names data <> [] /\ existsb text_is_none data = true.
Proof.
  unfold csv_returns, row_returns. intros H.
  destruct (csv_names data) as [|name names].
  - exfalso. assert (E : forallb (fun row => negb (text_is_none row) || true)%bool data = true).
    { apply forallb_forall. intros row _. apply orb_true_r. }
    congruence.
  - split; [discriminate|].
    destruct (existsb text_is_none data) eqn:E; [reflexivity|exfalso].
    assert (E' : forallb (fun row => negb (text_is_none row) || false)%bool data = true).
    { apply forallb_forall. intros row Hin. rewrite orb_false_r.
      apply negb_true_iff.
      destruct (text_is_none row) eqn:Et; [|reflexivity].
      assert (existsb text_is_none data = true)
        by (apply existsb_exists; eauto).
      congruence. }
    congruence.
Qed.

(** X23.  Flat extraction raises exactly when line 193 does for some row:
    then some row has [None] as its ["Text_Content"], a row shorter than
    the header, and some row has a name that is not empty; the exception
    is [TypeError] and no unit is returned. *)
Theorem csv_short_row_raises (data : list Row) (original_file_name : str) :
  csv_returns data = false ->
  filter_and_chunk_csv_data data original_file_name = Raise TypeError
  /\ csv_names data <> []
  /\ existsb text_is_none data = true.
Proof.
  intros Hr. split.
  - now rewrite filter_and_chunk_csv_data_cases, Hr.
  - now apply csv_returns_false.
Qed.

Lemma csv_short_row_raises_witness :
  csv_returns [Sample.alice; Sample.short] = false
  /\ filter_and_chunk_csv_data [Sample.alice; Sample.short] (lit "f.csv")
     = Raise TypeError
  /\ csv_names [Sample.alice; Sample.short] <> []
  /\ existsb text_is_none [Sample.alice; Sample.short] = true.
Proof.
  split; [reflexivity|].
  apply (csv_short_row_raises [Sample.alice; Sample.short] (lit "f.csv")).
  reflexivity.
Defined.

(** A row without a text in an input without a name: the anonymiser
    returns [None], and the chunk has no content to write. *)
Example csv_short_row_unnamed :
  exists u,
    filter_and_chunk_csv_data [Sample.short_unnamed] (lit "f.csv") = Ok [u]
    /\ map Content_EN_out (chunks u) = [Some VNone]
    /\ write_unit u
       = lit "Source: f.csv" ++ newline ++ lit "Type: CSV_Row" ++ newline
           ++ lit "Row_ID: 1" ++ newline ++ lit "Date: " ++ newline
           ++ newline ++ lit "Chunk [001]:" ++ newline ++ newline.
Proof. eexists. repeat split. Qed.
